(** * cmdFuscator: tokenizer, renderer, modifier registry and pipeline

    A shallow embedding of the Go packages [models], [engine],
    [engine/modifiers] and of the registered modifiers, together with the
    properties of the engine that the design document states.

    Conventions of the embedding.
    - A Go [string] that the program inspects rune by rune (the command line
      and the token values) is the sequence of its code points, [list rune].
      These strings reach the engine from the terminal input and from decoded
      JSON, so they are valid UTF-8, on which [[]rune(s)] and [string(runes)]
      are inverse to each other; both conversions are the identity here.
    - A Go [string] that the program only compares or uses as a map key
      (modifier names, configuration fields, raw JSON) is a byte string,
      [string].
    - A Go function returning [(T, error)] returns a pair whose second
      component is [None] for the nil error.
    - Functions of the Go standard library whose code is not part of the
      repository ([encoding/json], [strconv], the Unicode case tables, the
      generator behind [math/rand]) are the fields of the class [GoLib]. *)

From Stdlib Require Import ZArith QArith Lia List String Ascii.
From stdpp Require Import base option list gmap strings.

Close Scope Q_scope.
Open Scope Z_scope.
Open Scope list_scope.

(** ** Strings and runes *)

Definition rune := Z.

Abbreviation gostring := (list rune).

(** The code points of an ASCII literal. *)
Definition str (s : string) : gostring :=
  map (fun a => Z.of_N (N_of_ascii a)) (list_ascii_of_string s).

(** [unicode.IsSpace]: the Latin-1 space characters, then the White_Space
    property of the other planes. *)
Definition IsSpace (r : rune) : bool :=
  if (0 <=? r) && (r <=? 255) then
    (r =? 9) || (r =? 10) || (r =? 11) || (r =? 12) || (r =? 13)
    || (r =? 32) || (r =? 133) || (r =? 160)
  else
    (r =? 5760) || ((8192 <=? r) && (r <=? 8202)) || (r =? 8232)
    || (r =? 8233) || (r =? 8239) || (r =? 8287) || (r =? 12288).

(** [strings.Fields]: the maximal runs of non-space runes, in order.  [cur]
    holds the field being read, most recent rune first. *)
Fixpoint fields_from (cur : gostring) (s : gostring) : list gostring :=
  match s with
  | [] => match cur with [] => [] | _ => [rev cur] end
  | r :: s' =>
      if IsSpace r then
        match cur with
        | [] => fields_from [] s'
        | _ => rev cur :: fields_from [] s'
        end
      else fields_from (r :: cur) s'
  end.

Definition Fields (s : gostring) : list gostring := fields_from [] s.

(** [strings.Join]. *)
Fixpoint Join (elems : list gostring) (sep : gostring) : gostring :=
  match elems with
  | [] => []
  | [e] => e
  | e :: rest => e ++ sep ++ Join rest sep
  end.

(** [strings.TrimSpace]: the string without its leading and trailing
    white space. *)
Fixpoint dropSpaces (s : gostring) : gostring :=
  match s with
  | [] => []
  | r :: s' => if IsSpace r then dropSpaces s' else s
  end.

Definition TrimSpace (s : gostring) : gostring :=
  rev (dropSpaces (rev (dropSpaces s))).

(** ** package models *)

(** [type TokenType string] and its five constants. *)
Definition TokenType := string.

Definition TokenTypeCommand : TokenType := "command".
Definition TokenTypeArgument : TokenType := "argument".
Definition TokenTypeValue : TokenType := "value".
Definition TokenTypePath : TokenType := "path".
Definition TokenTypeURL : TokenType := "url".

Record Token := { Type_ : TokenType; Value : gostring }.

(** [models.Token{}]. *)
Definition zeroToken : Token := {| Type_ := EmptyString; Value := [] |}.

#[global] Instance Token_eq_dec : EqDecision Token.
Proof. solve_decision. Defined.

Definition RawMessage := string.

Record Versions := { ArgFuscator : string; Format : string }.

Record CommandElement := {
  ce_Command : gostring;
  ce_Argument : gostring;
  ce_Value : gostring;
  ce_Path : gostring;
  ce_URL : gostring
}.

Record ArgumentDefinition := { Flags : list gostring; ValueCount : Z }.

Record ProfileParameters := {
  Command : list CommandElement;
  Arguments : list ArgumentDefinition;
  Modifiers : gmap string RawMessage
}.

Record Profile := {
  ExecutableVersion : string;
  Platform : string;
  OperatingSystem : string;
  OperatingSystemVersion : string;
  Alias : list string;
  Parameters : ProfileParameters
}.

Record ProfileFile := {
  pf_Name : string;
  pf_Versions : Versions;
  Profiles : list Profile
}.

Record BaseModifierConfig := {
  AppliesTo : list string;
  Probability : string
}.

(** ** Errors *)

(** [ErrNotImplemented] is the sentinel of package [modifiers]; [ErrNew] is
    an error made by [errors.New] or by [fmt.Errorf] without a wrapped
    operand; [ErrLib] is an error value of the standard library; [ErrWrap]
    is [fmt.Errorf("...: %w", err)]. *)
Inductive error :=
| ErrNotImplemented
| ErrNew (msg : string)
| ErrLib (msg : string)
| ErrWrap (msg : string) (inner : error).

#[global] Instance error_eq_dec : EqDecision error.
Proof. solve_decision. Defined.

(** [errors.Is]: [target] is [err] or is reached from it by unwrapping. *)
Fixpoint errors_Is (err target : error) : bool :=
  if decide (err = target) then true
  else match err with
       | ErrWrap _ inner => errors_Is inner target
       | _ => false
       end.

(** ** package engine: Tokenize and Render *)

Definition Tokenize (command : gostring) (profile : Profile)
  : list Token * option error :=
  let parts := Fields command in
  match parts with
  | [] => ([], Some (ErrNew "tokenize: empty command"))
  | p0 :: rest =>
      ({| Type_ := TokenTypeCommand; Value := p0 |}
         :: map (fun p => {| Type_ := TokenTypeArgument; Value := p |}) rest,
       None)
  end.

Definition Render (tokens : list Token) : gostring :=
  Join (map Value tokens) (str " ").

(** [pf.Profiles[0]]; [None] is the run-time panic of an index out of
    range. *)
Definition pickProfile (pf : ProfileFile) : option Profile :=
  Profiles pf !! 0%nat.

(** ** The standard library *)

(** A [float64] by its value; the program only compares floats. *)
Inductive float64 :=
| NaN
| Inf (negative : bool)
| Fin (q : Q).

Definition Qltb (a b : Q) : bool :=
  Qnum a * Z.pos (Qden b) <? Qnum b * Z.pos (Qden a).

(** [x < y] on [float64]: false as soon as one side is not a number. *)
Definition flt (x y : float64) : bool :=
  match x, y with
  | NaN, _ => false
  | _, NaN => false
  | Inf true, Inf true => false
  | Inf true, _ => true
  | Inf false, _ => false
  | Fin _, Inf negative => negb negative
  | Fin a, Fin b => Qltb a b
  end.

Definition f0 : float64 := Fin (0 # 1).
Definition f1 : float64 := Fin (1 # 1).

(** The configuration structs of the two modifiers that decode theirs. *)
Module randomcase.
Record Config := { Base : BaseModifierConfig }.
End randomcase.

Module charinsert.
Record Config := {
  Base : BaseModifierConfig;
  Characters : list gostring;
  Offset : string
}.
End charinsert.

(** The functions of the standard library that the modifiers call.  A
    library error is given by its message.  [rand_draws n] is the value of
    the [n]-th call of [rand.Float64] since the generator was seeded. *)
Class GoLib := {
  json_Unmarshal_randomcase : RawMessage -> randomcase.Config * option string;
  json_Unmarshal_charinsert : RawMessage -> charinsert.Config * option string;
  strconv_ParseFloat : string -> float64 * option string;
  strconv_Atoi : string -> Z * option string;
  unicode_IsUpper_table : rune -> bool;
  unicode_ToUpper_table : rune -> rune;
  unicode_ToLower_table : rune -> rune;
  rand_draws : nat -> Q
}.

(** [rand.Float64] returns a number of the half-open interval [[0.0,1.0)]. *)
Definition Float64_in_range `{GoLib} : Prop :=
  forall n : nat, (0 <= rand_draws n)%Q /\ (rand_draws n < 1)%Q.

(** The state of the generator: how many numbers were drawn. *)
Definition rng := nat.

Definition Float64 `{GoLib} (g : rng) : float64 * rng :=
  (Fin (rand_draws g), S g).

(** [unicode.IsUpper], [unicode.ToUpper] and [unicode.ToLower] decide
    ASCII by comparison and read the case tables above it. *)
Definition IsUpper `{GoLib} (r : rune) : bool :=
  if (0 <=? r) && (r <=? 127) then (65 <=? r) && (r <=? 90)
  else unicode_IsUpper_table r.

Definition ToUpper `{GoLib} (r : rune) : rune :=
  if r <=? 127 then
    if (97 <=? r) && (r <=? 122) then r - 32 else r
  else unicode_ToUpper_table r.

Definition ToLower `{GoLib} (r : rune) : rune :=
  if r <=? 127 then
    if (65 <=? r) && (r <=? 90) then r + 32 else r
  else unicode_ToLower_table r.

(** [slices.Contains]. *)
Fixpoint Contains (s : list string) (v : string) : bool :=
  match s with
  | [] => false
  | x :: rest => if decide (x = v) then true else Contains rest v
  end.

(** ** Token slices in memory *)

(** The memory holds the backing arrays of the token slices and the state
    of the random generator.  No token slice of the program is a proper
    part of its array, so a slice is the address of its array. *)
Definition loc := nat.

Record memory := { arrays : list (list Token); seed : rng }.

(** A computation on the memory; [None] is a run-time panic. *)
Definition M (A : Type) : Type := memory -> option (A * memory).

Definition ret {A : Type} (a : A) : M A := fun m => Some (a, m).

Definition bind {A B : Type} (c : M A) (k : A -> M B) : M B :=
  fun m => match c m with
           | Some (a, m') => k a m'
           | None => None
           end.

Notation "'let*' x ':=' c 'in' k" := (bind c (fun x => k))
  (at level 10, x name, c at level 100, k at level 200).

(** [len(s)]. *)
Definition slice_len (s : loc) : M nat :=
  fun m => match arrays m !! s with
           | Some a => Some (length a, m)
           | None => None
           end.

(** [make([]models.Token, n)]: a new array of [n] zero tokens. *)
Definition make (n : nat) : M loc :=
  fun m => Some (length (arrays m),
                 {| arrays := arrays m ++ [replicate n zeroToken];
                    seed := seed m |}).

(** [copy(dst, src)]: the first [min(len(dst), len(src))] elements. *)
Definition copy (dst src : loc) : M nat :=
  fun m => match arrays m !! dst, arrays m !! src with
           | Some d, Some s =>
               let n := Nat.min (length d) (length s) in
               Some (n, {| arrays := <[dst := take n s ++ drop n d]> (arrays m);
                           seed := seed m |})
           | _, _ => None
           end.

(** [s[i]]; an index out of range panics. *)
Definition index (s : loc) (i : nat) : M Token :=
  fun m => match arrays m !! s with
           | Some a => match a !! i with
                       | Some t => Some (t, m)
                       | None => None
                       end
           | None => None
           end.

(** [s[i].Value = v]; an index out of range panics. *)
Definition setValue (s : loc) (i : nat) (v : gostring) : M unit :=
  fun m => match arrays m !! s with
           | Some a =>
               match a !! i with
               | Some t =>
                   Some (tt, {| arrays :=
                                  <[s := <[i := {| Type_ := Type_ t;
                                                   Value := v |}]> a]>
                                    (arrays m);
                                seed := seed m |})
               | None => None
               end
           | None => None
           end.

(** A computation that only draws random numbers. *)
Definition drawing {A : Type} (f : rng -> A * rng) : M A :=
  fun m => let '(a, g) := f (seed m) in
           Some (a, {| arrays := arrays m; seed := g |}).

(** [for idx := range s], from index [from] for [count] rounds. *)
Fixpoint forRange (from count : nat) (body : nat -> M unit) : M unit :=
  match count with
  | O => ret tt
  | S k => let* _ := body from in forRange (S from) k body
  end.

(** ** package modifiers: the contract and the registry *)

(** The interface [Modifier].  The method [Apply] is given twice: [Apply]
    on the contents of the token slices, and [Apply_mem] on the slices in
    memory, which tells a copy from an alias. *)
Record Modifier := {
  Name : string;
  Description : string;
  Apply : list Token -> RawMessage -> rng -> (list Token * option error) * rng;
  Apply_mem : loc -> RawMessage -> M (loc * option error)
}.

Record Registry := {
  registry : gmap string Modifier;
  order : list string
}.

Definition emptyRegistry : Registry := {| registry := ∅; order := [] |}.

(** [Register]; [None] is the panic on a duplicate name. *)
Definition Register (m : Modifier) (R : Registry) : option Registry :=
  match registry R !! Name m with
  | Some _ => None
  | None =>
      Some {| registry := <[Name m := m]> (registry R);
              order := order R ++ [Name m] |}
  end.

(** [All]: every name of [order] was registered, so each lookup succeeds. *)
Definition All (R : Registry) : list Modifier :=
  omap (fun name => registry R !! name) (order R).

Definition Get (R : Registry) (name : string) : option Modifier :=
  registry R !! name.

(** ** The modifiers *)

(** The modifiers whose [Apply] is [return tokens, ErrNotImplemented]. *)
Definition stubApply (tokens : list Token) (cfg : RawMessage) (g : rng)
  : (list Token * option error) * rng :=
  ((tokens, Some ErrNotImplemented), g).

Definition stubApply_mem (tokens : loc) (cfg : RawMessage)
  : M (loc * option error) :=
  ret (tokens, Some ErrNotImplemented).

Definition FilePathTransformer : Modifier :=
  {| Name := "FilePathTransformer";
     Description := "Add path traversal, swap slashes, or duplicate separators";
     Apply := stubApply;
     Apply_mem := stubApply_mem |}.

Definition OptionCharSubstitution : Modifier :=
  {| Name := "OptionCharSubstitution";
     Description := "Replace - or / with a lookalike Unicode option char";
     Apply := stubApply;
     Apply_mem := stubApply_mem |}.

Definition QuoteInsertion : Modifier :=
  {| Name := "QuoteInsertion";
     Description := "Insert empty quote pairs inside tokens";
     Apply := stubApply;
     Apply_mem := stubApply_mem |}.

Definition Regex : Modifier :=
  {| Name := "Regex";
     Description := "Apply regex find-and-replace substitutions";
     Apply := stubApply;
     Apply_mem := stubApply_mem |}.

Definition ReorderArgs : Modifier :=
  {| Name := "ReorderArgs";
     Description := "Shuffle argument order (keeps flag–value pairs)";
     Apply := stubApply;
     Apply_mem := stubApply_mem |}.

Definition Sed : Modifier :=
  {| Name := "Sed";
     Description := "Replace chars with Unicode lookalikes via sed rules";
     Apply := stubApply;
     Apply_mem := stubApply_mem |}.

Definition Shorthands : Modifier :=
  {| Name := "Shorthands";
     Description := "Abbreviate flags to shortest unambiguous prefix";
     Apply := stubApply;
     Apply_mem := stubApply_mem |}.

Definition UrlTransformer : Modifier :=
  {| Name := "UrlTransformer";
     Description := "Encode IPs and rewrite URL path structure";
     Apply := stubApply;
     Apply_mem := stubApply_mem |}.

(** *** CharacterInsertion *)

(** The error that [CharacterInsertion.Apply] returns: the configuration
    is decoded and checked, and nothing is inserted yet.  The two
    [fmt.Println] calls of the successful checks only write to the standard
    output.  In the range check [err] is nil, so [%w] wraps nothing. *)
Definition charinsert_error `{GoLib} (cfg : RawMessage) : error :=
  match json_Unmarshal_charinsert cfg with
  | (_, Some err) => ErrWrap "unmarshal config: " (ErrLib err)
  | (cfgM, None) =>
      match strconv_ParseFloat (Probability (charinsert.Base cfgM)) with
      | (_, Some err) => ErrWrap "parse probability: " (ErrLib err)
      | (probability, None) =>
          if flt probability f0 || flt f1 probability then
            ErrNew "probability must be between 0 and 1: %!w(<nil>)"
          else
            match strconv_Atoi (charinsert.Offset cfgM) with
            | (_, Some err) => ErrWrap "parse offset: " (ErrLib err)
            | (offset, None) => ErrNotImplemented
            end
      end
  end.

Definition charinsert_Apply `{GoLib}
  (tokens : list Token) (cfg : RawMessage) (g : rng)
  : (list Token * option error) * rng :=
  ((tokens, Some (charinsert_error cfg)), g).

Definition charinsert_Apply_mem `{GoLib} (tokens : loc) (cfg : RawMessage)
  : M (loc * option error) :=
  ret (tokens, Some (charinsert_error cfg)).

Definition CharacterInsertion `{GoLib} : Modifier :=
  {| Name := "CharacterInsertion";
     Description := "Insert invisible Unicode characters into tokens";
     Apply := charinsert_Apply;
     Apply_mem := charinsert_Apply_mem |}.

(** *** RandomCase *)

(** The body of the inner loop on one rune: the case test reads the rune
    of the range clause, which is the rune about to be overwritten. *)
Definition flipCase `{GoLib} (r : rune) : rune :=
  if IsUpper r then ToLower r else ToUpper r.

(** The inner loop: one draw per rune, in order. *)
Fixpoint flipRunes `{GoLib} (probability : float64) (runes : list rune)
  (g : rng) : list rune * rng :=
  match runes with
  | [] => ([], g)
  | r :: rest =>
      let '(x, g1) := Float64 g in
      let r' := if flt x probability then flipCase r else r in
      let '(rest', g2) := flipRunes probability rest g1 in
      (r' :: rest', g2)
  end.

(** The outer loop: [out] starts as a copy of [tokens] and receives the
    rebuilt value of every eligible token. *)
Fixpoint flipTokens `{GoLib} (appliesTo : list string)
  (probability : float64) (tokens : list Token) (g : rng)
  : list Token * rng :=
  match tokens with
  | [] => ([], g)
  | t :: rest =>
      if negb (Contains appliesTo (Type_ t)) then
        let '(rest', g1) := flipTokens appliesTo probability rest g in
        (t :: rest', g1)
      else
        let '(runes, g1) := flipRunes probability (Value t) g in
        let '(rest', g2) := flipTokens appliesTo probability rest g1 in
        ({| Type_ := Type_ t; Value := runes |} :: rest', g2)
  end.

Definition randomcase_Apply `{GoLib}
  (tokens : list Token) (cfg : RawMessage) (g : rng)
  : (list Token * option error) * rng :=
  match json_Unmarshal_randomcase cfg with
  | (_, Some err) =>
      ((tokens, Some (ErrWrap "unmarshal config: " (ErrLib err))), g)
  | (cfgM, None) =>
      match strconv_ParseFloat (Probability (randomcase.Base cfgM)) with
      | (_, Some err) =>
          ((tokens, Some (ErrWrap "parse probability: " (ErrLib err))), g)
      | (probability, None) =>
          if flt probability f0 || flt f1 probability then
            ((tokens, Some (ErrNew "probability must be between 0 and 1")), g)
          else
            let '(out, g') :=
              flipTokens (AppliesTo (randomcase.Base cfgM)) probability
                tokens g in
            ((out, None), g')
      end
  end.

(** The same method on the memory: [out] is a new array, [tokens] is only
    read, and the failing returns hand back [tokens] itself.  The rune
    slice of each round is new and local, so it stays a value.
    [randomcase_round] is the body of the loop over the tokens. *)
Definition randomcase_round `{GoLib} (appliesTo : list string)
  (probability : float64) (tokens out : loc) (idx : nat) : M unit :=
  let* t := index tokens idx in
  if negb (Contains appliesTo (Type_ t)) then ret tt
  else
    let* runes := drawing (flipRunes probability (Value t)) in
    setValue out idx runes.

Definition randomcase_Apply_mem `{GoLib} (tokens : loc) (cfg : RawMessage)
  : M (loc * option error) :=
  let* n := slice_len tokens in
  let* out := make n in
  let* _ := copy out tokens in
  match json_Unmarshal_randomcase cfg with
  | (_, Some err) =>
      ret (tokens, Some (ErrWrap "unmarshal config: " (ErrLib err)))
  | (cfgM, None) =>
      match strconv_ParseFloat (Probability (randomcase.Base cfgM)) with
      | (_, Some err) =>
          ret (tokens, Some (ErrWrap "parse probability: " (ErrLib err)))
      | (probability, None) =>
          if flt probability f0 || flt f1 probability then
            ret (tokens, Some (ErrNew "probability must be between 0 and 1"))
          else
            let* _ :=
              forRange 0 n
                (randomcase_round (AppliesTo (randomcase.Base cfgM))
                   probability tokens out) in
            ret (out, None)
      end
  end.

Definition RandomCase `{GoLib} : Modifier :=
  {| Name := "RandomCase";
     Description := "Randomly flip UPPER/lower case per character";
     Apply := randomcase_Apply;
     Apply_mem := randomcase_Apply_mem |}.

(** *** package all: registration at start-up

    The [init] functions run in the order of the import paths. *)
Definition init `{GoLib} : option Registry :=
  R ← Register CharacterInsertion emptyRegistry;
  R ← Register FilePathTransformer R;
  R ← Register OptionCharSubstitution R;
  R ← Register QuoteInsertion R;
  R ← Register RandomCase R;
  R ← Register Regex R;
  R ← Register ReorderArgs R;
  R ← Register Sed R;
  R ← Register Shorthands R;
  Register UrlTransformer R.

(** The registry after start-up. *)
Definition builtin `{GoLib} : Registry := default emptyRegistry init.

(** ** package engine: the pipeline *)

Record ObfuscateResult := {
  Output : gostring;
  Applied : list string;
  Skipped : list string;
  Errors : gmap string error
}.

(** [ObfuscateResult{}]. *)
Definition zeroResult : ObfuscateResult :=
  {| Output := []; Applied := []; Skipped := []; Errors := ∅ |}.

(** What the loop over the modifiers carries from one round to the next:
    the variables [tokens] and [result], and the random generator. *)
Record pipeline := {
  tokens_ : list Token;
  result_ : ObfuscateResult;
  rng_ : rng
}.

(** One round of the loop of [Obfuscate]. *)
Definition applyModifier (profile : Profile) (enabled : gmap string bool)
  (st : pipeline) (mod_ : Modifier) : pipeline :=
  if negb (default false (enabled !! Name mod_)) then st
  else
    match Modifiers (Parameters profile) !! Name mod_ with
    | None => st
    | Some rawCfg =>
        let '((modified, err), g') :=
          Apply mod_ (tokens_ st) rawCfg (rng_ st) in
        let result := result_ st in
        match err with
        | Some e =>
            if errors_Is e ErrNotImplemented then
              {| tokens_ := tokens_ st;
                 result_ := {| Output := Output result;
                               Applied := Applied result;
                               Skipped := Skipped result ++ [Name mod_];
                               Errors := Errors result |};
                 rng_ := g' |}
            else
              {| tokens_ := tokens_ st;
                 result_ := {| Output := Output result;
                               Applied := Applied result;
                               Skipped := Skipped result;
                               Errors := <[Name mod_ := e]> (Errors result) |};
                 rng_ := g' |}
        | None =>
            {| tokens_ := modified;
               result_ := {| Output := Output result;
                             Applied := Applied result ++ [Name mod_];
                             Skipped := Skipped result;
                             Errors := Errors result |};
               rng_ := g' |}
        end
    end.

(** The loop of [Obfuscate] over [modifiers.All()]. *)
Definition applyAll (profile : Profile) (enabled : gmap string bool)
  (mods : list Modifier) (st : pipeline) : pipeline :=
  fold_left (applyModifier profile enabled) mods st.

(** [Obfuscate], with the registry and the generator as explicit state.
    [pf] is a pointer, [None] when nil.  The outer [None] of the result is a
    run-time panic. *)
Definition Obfuscate (R : Registry) (command : gostring)
  (pf : option ProfileFile) (enabled : gmap string bool) (g : rng)
  : option ((ObfuscateResult * option error) * rng) :=
  match pf with
  | None =>
      Some ((zeroResult, Some (ErrNew "engine: no profiles available")), g)
  | Some pf' =>
      if (length (Profiles pf') =? 0)%nat then
        Some ((zeroResult, Some (ErrNew "engine: no profiles available")), g)
      else
        profile ← pickProfile pf';
        match Tokenize command profile with
        | (_, Some err) =>
            Some ((zeroResult, Some (ErrWrap "engine: tokenize: " err)), g)
        | (tokens, None) =>
            let st :=
              applyAll profile enabled (All R)
                {| tokens_ := tokens;
                   result_ := {| Output := []; Applied := []; Skipped := [];
                                 Errors := ∅ |};
                   rng_ := g |} in
            Some (({| Output := Render (tokens_ st);
                      Applied := Applied (result_ st);
                      Skipped := Skipped (result_ st);
                      Errors := Errors (result_ st) |}, None), rng_ st)
        end
  end.

(** ** Notions of the design document *)

(** A command line without unusual white space: it is not empty, it neither
    starts nor ends with white space, and every white space in it is one
    ASCII space on its own.  [afterSpace] tells that the previous rune was
    white space, or that there is none. *)
Fixpoint singleSpaced (afterSpace : bool) (s : gostring) : bool :=
  match s with
  | [] => negb afterSpace
  | r :: s' =>
      if IsSpace r then negb afterSpace && (r =? 32) && singleSpaced true s'
      else singleSpaced false s'
  end.

Definition plainlySpaced (s : gostring) : bool := singleSpaced true s.

(** A profile set is empty when the pointer is nil or the file lists no
    profile. *)
Definition noProfile (pf : option ProfileFile) : Prop :=
  match pf with
  | None => True
  | Some pf' => Profiles pf' = []
  end.

(** The selection policy in the words of the design document: the first
    profile of the host platform, else the first profile of the file. *)
Definition pickProfile_byPlatform (host : string) (pf : ProfileFile)
  : option Profile :=
  match List.find (fun p => String.eqb (Platform p) host) (Profiles pf) with
  | Some p => Some p
  | None => Profiles pf !! 0%nat
  end.

(** A result reports a modifier as failed under [Skipped] or [Errors], and
    reports it when it lists it under [Applied] or as failed. *)
Definition failed (name : string) (res : ObfuscateResult) : Prop :=
  name ∈ Skipped res \/ is_Some (Errors res !! name).

Definition reported (name : string) (res : ObfuscateResult) : Prop :=
  name ∈ Applied res \/ failed name res.

(** A modifier whose [Apply] returns an error on every input. *)
Definition alwaysFails (m : Modifier) : Prop :=
  forall tokens cfg g, snd (fst (Apply m tokens cfg g)) <> None.

(** The ASCII letters. *)
Definition asciiUpper (r : rune) : bool := (65 <=? r) && (r <=? 90).
Definition asciiLower (r : rune) : bool := (97 <=? r) && (r <=? 122).

(** A token with every rune of its value through [flipCase]. *)
Definition flipAll `{GoLib} (t : Token) : Token :=
  {| Type_ := Type_ t; Value := map flipCase (Value t) |}.

(** ** Fixtures for the examples *)

Definition noParameters : ProfileParameters :=
  {| Command := []; Arguments := []; Modifiers := ∅ |}.

Definition profileOn (platform : string) (params : ProfileParameters)
  : Profile :=
  {| ExecutableVersion := EmptyString; Platform := platform;
     OperatingSystem := EmptyString; OperatingSystemVersion := EmptyString;
     Alias := []; Parameters := params |}.

(** A profile that declares the flag [-f] with one value. *)
Definition certutilProfile : Profile :=
  profileOn "windows"
    {| Command := [];
       Arguments := [ {| Flags := [str "-f"]; ValueCount := 1 |} ];
       Modifiers := ∅ |}.

Definition scenarioA : gostring :=
  str "certutil.exe -urlcache -f https://example.com output.bin".

Definition fileOf (profiles : list Profile) : ProfileFile :=
  {| pf_Name := "certutil";
     pf_Versions := {| ArgFuscator := EmptyString; Format := "2.0" |};
     Profiles := profiles |}.

Definition baseConfig (appliesTo : list string) (probability : string)
  : BaseModifierConfig :=
  {| AppliesTo := appliesTo; Probability := probability |}.

(** An instance of the library for the examples: three raw messages stand
    for three configurations, the decimal strings below parse to their
    values, no rune above ASCII has a case, and every draw is one half. *)
Definition exampleLib : GoLib :=
  {| json_Unmarshal_randomcase raw :=
       if decide (raw = "arguments:1.0") then
         ({| randomcase.Base := baseConfig ["argument"] "1.0" |}, None)
       else if decide (raw = "arguments,values:0.0") then
         ({| randomcase.Base := baseConfig ["argument"; "value"] "0.0" |}, None)
       else
         ({| randomcase.Base := baseConfig [] EmptyString |},
          Some "invalid character");
     json_Unmarshal_charinsert raw :=
       if decide (raw = "arguments:1.0:empty pool") then
         ({| charinsert.Base := baseConfig ["argument"] "1.0";
             charinsert.Characters := [];
             charinsert.Offset := "2" |}, None)
       else
         ({| charinsert.Base := baseConfig [] EmptyString;
             charinsert.Characters := [];
             charinsert.Offset := EmptyString |}, Some "invalid character");
     strconv_ParseFloat s :=
       if decide (s = "0.0") then (f0, None)
       else if decide (s = "1.0") then (f1, None)
       else if decide (s = "NaN") then (NaN, None)
       else (f0, Some "invalid syntax");
     strconv_Atoi s :=
       if decide (s = "2") then (2, None)
       else (0, Some "invalid syntax");
     unicode_IsUpper_table _ := false;
     unicode_ToUpper_table r := r;
     unicode_ToLower_table r := r;
     rand_draws _ := (1 # 2)%Q |}.

Definition urlcache : Token :=
  {| Type_ := TokenTypeArgument; Value := str "-urlcache" |}.

(** A profile that configures two modifiers, a map that enables both, and
    the state of the loop before its first round on one token. *)
Definition exampleProfile : Profile :=
  profileOn "windows"
    {| Command := []; Arguments := [];
       Modifiers := {[ "CharacterInsertion" := "arguments:1.0:empty pool";
                       "RandomCase" := "arguments:1.0" ]} |}.

Definition bothEnabled : gmap string bool :=
  {[ "CharacterInsertion" := true; "RandomCase" := true ]}.

Definition start : pipeline :=
  {| tokens_ := [urlcache]; result_ := zeroResult; rng_ := 0%nat |}.

(** ** package models: the command template *)

Definition nonEmpty (s : gostring) : bool :=
  match s with
  | [] => false
  | _ => true
  end.

(** [CommandElement.Type]: the first field that is set, in the order of
    the switch. *)
Definition CommandElement_Type (c : CommandElement) : TokenType :=
  if nonEmpty (ce_Command c) then TokenTypeCommand
  else if nonEmpty (ce_Argument c) then TokenTypeArgument
  else if nonEmpty (ce_Path c) then TokenTypePath
  else if nonEmpty (ce_URL c) then TokenTypeURL
  else TokenTypeValue.

(** [CommandElement.StringValue]. *)
Definition StringValue (c : CommandElement) : gostring :=
  if nonEmpty (ce_Command c) then ce_Command c
  else if nonEmpty (ce_Argument c) then ce_Argument c
  else if nonEmpty (ce_Path c) then ce_Path c
  else if nonEmpty (ce_URL c) then ce_URL c
  else ce_Value c.

(** [CommandElement.ToToken]. *)
Definition ToToken (c : CommandElement) : Token :=
  {| Type_ := CommandElement_Type c; Value := StringValue c |}.

(** ** package modifiers: a run of registrations *)

(** One [Register] call after the other, as the [init] functions make
    them; [None] as soon as one of them panics. *)
Fixpoint registerAll (ms : list Modifier) (R : Registry) : option Registry :=
  match ms with
  | [] => Some R
  | m :: rest => R' ← Register m R; registerAll rest R'
  end.

(** ** package engine: the view of the options panel *)

Record ModifierInfo := {
  info_Name : string;
  info_Description : string;
  info_Enabled : bool
}.

(** [ModifierSummary]. *)
Definition ModifierSummary (R : Registry) (enabled : gmap string bool)
  : list ModifierInfo :=
  map (fun m => {| info_Name := Name m;
                   info_Description := Description m;
                   info_Enabled := default false (enabled !! Name m) |})
    (All R).

(** [DefaultEnabled]: every name that the picked profile configures, set
    to true.  The outer [None] is a run-time panic. *)
Definition DefaultEnabled (pf : option ProfileFile)
  : option (gmap string bool) :=
  match pf with
  | None => Some ∅
  | Some pf' =>
      if (length (Profiles pf') =? 0)%nat then Some ∅
      else
        profile ← pickProfile pf';
        Some ((fun _ : RawMessage => true)
                <$> Modifiers (Parameters profile))
  end.

(** [ConfigFor]: the raw configuration and whether it is there. *)
Definition ConfigFor (profile : Profile) (modifierName : string)
  : option RawMessage :=
  Modifiers (Parameters profile) !! modifierName.

(** ** package tui: what the interface hands to the engine *)

(** [buildTemplateCommand]. *)
Definition buildTemplateCommand (p : Profile) : gostring :=
  Join (map StringValue (Command (Parameters p))) (str " ").

(** [toggleModifier], on the two fields of the model that it reads and
    writes. *)
Definition toggleModifier (modifiers : list ModifierInfo) (modCursor : Z)
  : list ModifierInfo :=
  if (0 <=? modCursor) && (modCursor <? Z.of_nat (length modifiers)) then
    match modifiers !! Z.to_nat modCursor with
    | Some info =>
        <[Z.to_nat modCursor :=
            {| info_Name := info_Name info;
               info_Description := info_Description info;
               info_Enabled := negb (info_Enabled info) |}]> modifiers
    | None => modifiers
    end
  else modifiers.

(** The map that [applyObfuscation] builds from the options panel:
    [enabled[mod.Name] = mod.Enabled] for each entry, in order. *)
Definition enabledOf (modifiers : list ModifierInfo) : gmap string bool :=
  fold_left (fun enabled mod_ => <[info_Name mod_ := info_Enabled mod_]> enabled)
    modifiers ∅.

(** How [applyObfuscation] ends, without the text of the status line and
    the updates of the widgets. *)
Inductive applyOutcome :=
| NothingSelected
| NoCommand
| CallFailed (err : error)
| CallDone (result : ObfuscateResult).

(** [applyObfuscation] up to its call of [Obfuscate]: [selected] is the
    selected file, [input] the value of the command input. *)
Definition applyObfuscation (R : Registry) (selected : option ProfileFile)
  (input : gostring) (modifiers : list ModifierInfo) (g : rng)
  : option (applyOutcome * rng) :=
  match selected with
  | None => Some (NothingSelected, g)
  | Some _ =>
      let cmd := TrimSpace input in
      if negb (nonEmpty cmd) then Some (NoCommand, g)
      else
        r ← Obfuscate R cmd selected (enabledOf modifiers) g;
        match r with
        | ((_, Some err), g') => Some (CallFailed err, g')
        | ((result, None), g') => Some (CallDone result, g')
        end
  end.

(** ** More notions *)

(** A field: not empty and without white space. *)
Definition plain (f : gostring) : bool :=
  nonEmpty f && forallb (fun r => negb (IsSpace r)) f.

(** A modifier runs in a round of the loop when it is enabled and the
    profile configures it. *)
Definition runs (profile : Profile) (enabled : gmap string bool)
  (m : Modifier) : bool :=
  default false (enabled !! Name m)
  && bool_decide (is_Some (Modifiers (Parameters profile) !! Name m)).

(** The number of runes of the eligible tokens. *)
Definition eligibleRunes (appliesTo : list string) (tokens : list Token)
  : nat :=
  list_sum (map (fun t => if Contains appliesTo (Type_ t)
                          then length (Value t) else 0%nat) tokens).

(** The type and the number of runes of each token. *)
Definition shape (tokens : list Token) : list (TokenType * nat) :=
  map (fun t => (Type_ t, length (Value t))) tokens.

(** How the output of [RandomCase.Apply] relates to its input, rune by
    rune and token by token. *)
Definition flippedOrKept `{GoLib} (r r' : rune) : Prop :=
  r' = r \/ r' = flipCase r.

Definition caseVariant `{GoLib} (appliesTo : list string) (t o : Token)
  : Prop :=
  Type_ o = Type_ t /\
  Forall2 flippedOrKept (Value t) (Value o) /\
  (Contains appliesTo (Type_ t) = false -> o = t).

(** An instance of the library in which one raw message stands for a
    configuration whose probability parses to a NaN. *)
Definition nanLib : GoLib :=
  {| json_Unmarshal_randomcase raw :=
       if decide (raw = "arguments:NaN") then
         ({| randomcase.Base := baseConfig ["argument"] "NaN" |}, None)
       else json_Unmarshal_randomcase (GoLib := exampleLib) raw;
     json_Unmarshal_charinsert :=
       json_Unmarshal_charinsert (GoLib := exampleLib);
     strconv_ParseFloat := strconv_ParseFloat (GoLib := exampleLib);
     strconv_Atoi := strconv_Atoi (GoLib := exampleLib);
     unicode_IsUpper_table := unicode_IsUpper_table (GoLib := exampleLib);
     unicode_ToUpper_table := unicode_ToUpper_table (GoLib := exampleLib);
     unicode_ToLower_table := unicode_ToLower_table (GoLib := exampleLib);
     rand_draws := rand_draws (GoLib := exampleLib) |}.

(** Every name of [order] is a key of [registry]. *)
Definition ordered (R : Registry) : Prop :=
  forall n, n ∈ order R -> is_Some (registry R !! n).

(** A modifier that returns its input with an error and draws nothing. *)
Definition returnsInput (m : Modifier) : Prop :=
  exists fault : RawMessage -> error,
    forall tokens cfg g, Apply m tokens cfg g = ((tokens, Some (fault cfg)), g).

(** ** Quoted fields *)

(** The double quote. *)
Definition quote : rune := 34.

(** A text is quote-balanced when its double quotes pair up. *)
Definition quoteBalanced (s : gostring) : bool :=
  Nat.even (length (List.filter (fun r => r =? quote) s)).

(** The text outside of the quoted fields: the runes between an opening
    quote and its closing quote are left out, and so is the closing quote.
    [inQuote] tells that a quote is open. *)
Fixpoint outsideQuotes (inQuote : bool) (s : gostring) : gostring :=
  match s with
  | [] => []
  | r :: s' =>
      if r =? quote then
        if inQuote then outsideQuotes false s'
        else r :: outsideQuotes true s'
      else if inQuote then outsideQuotes true s'
      else r :: outsideQuotes false s'
  end.

(** The command [echo "a  b"], whose quoted field holds two spaces, and the
    command [echo "a b"]. *)
Definition quotedEcho : gostring :=
  str "echo " ++ [quote] ++ str "a  b" ++ [quote].

Definition quotedEchoJoined : gostring :=
  str "echo " ++ [quote] ++ str "a b" ++ [quote].

(** ** The result of a run, from the state after the loop *)

Definition resultOf (st : pipeline) : ObfuscateResult :=
  {| Output := Render (tokens_ st);
     Applied := Applied (result_ st);
     Skipped := Skipped (result_ st);
     Errors := Errors (result_ st) |}.

(** The state of the loop of [Obfuscate] before its first round. *)
Definition startOf (tokens : list Token) (g : rng) : pipeline :=
  {| tokens_ := tokens; result_ := zeroResult; rng_ := g |}.

(** ** Letters *)

(** [unicode.IsLetter] where the examples read it: on ASCII by comparison,
    and above ASCII on two runes by their general category.  U+00DF, LATIN
    SMALL LETTER SHARP S, is of category Ll, a letter; U+24D0, CIRCLED LATIN
    SMALL LETTER A, is of category So, a symbol.  [None] elsewhere: the
    table of the categories is not part of the repository. *)
Definition IsLetter (r : rune) : option bool :=
  if (0 <=? r) && (r <=? 127) then Some (asciiUpper r || asciiLower r)
  else if r =? 223 then Some true
  else if r =? 9424 then Some false
  else None.

(** The boundary at probability 1 in the words of the design document and
    of the tests of the package: every letter of an eligible token changes
    its case, so it changes, and every other rune stays. *)
Definition flipsLettersOnly `{GoLib} : Prop :=
  forall (cfg : RawMessage) (c : randomcase.Config) (tokens : list Token)
         (g : rng) (i j : nat) (t o : Token) (r r' : rune),
    json_Unmarshal_randomcase cfg = (c, None) ->
    Probability (randomcase.Base c) = "1.0" ->
    tokens !! i = Some t ->
    Contains (AppliesTo (randomcase.Base c)) (Type_ t) = true ->
    fst (fst (randomcase_Apply tokens cfg g)) !! i = Some o ->
    Value t !! j = Some r -> Value o !! j = Some r' ->
    (IsLetter r = Some true -> r' <> r) /\
    (IsLetter r = Some false -> r' = r).

(** The Argument token of the two runes U+24D0 and U+00DF, and the same
    with U+24B6, CIRCLED LATIN CAPITAL LETTER A, for the first. *)
Definition circledSharp : Token :=
  {| Type_ := TokenTypeArgument; Value := [9424; 223] |}.

Definition circledCapitalSharp : Token :=
  {| Type_ := TokenTypeArgument; Value := [9398; 223] |}.

(** An instance of the library that agrees with the case tables of Go on
    these runes: none of them is an upper case letter, U+24D0 and U+24B6
    are the small and the capital form of each other, and U+00DF has no
    other form. *)
Definition circledLib : GoLib :=
  {| json_Unmarshal_randomcase :=
       json_Unmarshal_randomcase (GoLib := exampleLib);
     json_Unmarshal_charinsert :=
       json_Unmarshal_charinsert (GoLib := exampleLib);
     strconv_ParseFloat := strconv_ParseFloat (GoLib := exampleLib);
     strconv_Atoi := strconv_Atoi (GoLib := exampleLib);
     unicode_IsUpper_table _ := false;
     unicode_ToUpper_table r := if r =? 9424 then 9398 else r;
     unicode_ToLower_table r := if r =? 9398 then 9424 else r;
     rand_draws := rand_draws (GoLib := exampleLib) |}.

(** ** A NaN for CharacterInsertion *)

(** A number of the closed interval from 0 to 1. *)
Definition betweenZeroAndOne (p : float64) : Prop :=
  match p with
  | Fin q => (0 <= q)%Q /\ (q <= 1)%Q
  | _ => False
  end.

(** An instance of the library in which one raw message stands for a
    configuration of CharacterInsertion whose probability parses to a NaN,
    with one character in the pool and the offset 2. *)
Definition nanInsertLib : GoLib :=
  {| json_Unmarshal_randomcase :=
       json_Unmarshal_randomcase (GoLib := exampleLib);
     json_Unmarshal_charinsert raw :=
       if decide (raw = "arguments:NaN:offset 2") then
         ({| charinsert.Base := baseConfig ["argument"] "NaN";
             charinsert.Characters := [[8203]];
             charinsert.Offset := "2" |}, None)
       else json_Unmarshal_charinsert (GoLib := exampleLib) raw;
     strconv_ParseFloat := strconv_ParseFloat (GoLib := exampleLib);
     strconv_Atoi := strconv_Atoi (GoLib := exampleLib);
     unicode_IsUpper_table := unicode_IsUpper_table (GoLib := exampleLib);
     unicode_ToUpper_table := unicode_ToUpper_table (GoLib := exampleLib);
     unicode_ToLower_table := unicode_ToLower_table (GoLib := exampleLib);
     rand_draws := rand_draws (GoLib := exampleLib) |}.

(** A profile that configures CharacterInsertion with that message. *)
Definition nanProfile : Profile :=
  profileOn "windows"
    {| Command := []; Arguments := [];
       Modifiers := {[ "CharacterInsertion" := "arguments:NaN:offset 2" ]} |}.

(** * Properties *)

(** ** Strings *)

Lemma forallb_rev {A : Type} (f : A -> bool) (l : list A) :
  forallb f (rev l) = forallb f l.
Proof.
  induction l as [|x l IH]; simpl; [reflexivity|].
  rewrite forallb_app, IH. simpl. rewrite andb_true_r. apply andb_comm.
Qed.

Lemma fields_from_cons_nonempty (s cur : gostring) (r : rune) :
  fields_from (r :: cur) s <> [].
Proof.
  revert r cur. induction s as [|x s IH]; intros r cur; simpl.
  - discriminate.
  - destruct (IsSpace x); [discriminate | apply IH].
Qed.

Lemma Join_cons (e : gostring) (rest : list gostring) (sep : gostring) :
  rest <> [] -> Join (e :: rest) sep = e ++ sep ++ Join rest sep.
Proof. destruct rest; [congruence | reflexivity]. Qed.

Lemma singleSpaced_fields (s : gostring) :
  singleSpaced true s = true -> fields_from [] s <> [].
Proof.
  destruct s as [|r s]; simpl; [discriminate|].
  destruct (IsSpace r); simpl; [discriminate|].
  intros _. apply fields_from_cons_nonempty.
Qed.

(** Reading a singly spaced text and joining the fields with one space
    gives the text back, whatever part of a field was already read. *)
Lemma Join_fields_from (s cur : gostring) :
  singleSpaced (match cur with [] => true | _ => false end) s = true ->
  Join (fields_from cur s) (str " ") = rev cur ++ s.
Proof.
  revert cur. induction s as [|r s IH]; intros cur H; simpl in *.
  - destruct cur; [discriminate|]. now rewrite app_nil_r.
  - destruct (IsSpace r) eqn:Hr.
    + destruct cur as [|c cur]; [discriminate|]. simpl in H.
      apply andb_prop in H as [H32 Hs]. apply Z.eqb_eq in H32. subst r.
      rewrite Join_cons by now apply singleSpaced_fields.
      now rewrite (IH [] Hs).
    + rewrite (IH (r :: cur) H). simpl. now rewrite <- app_assoc.
Qed.

Lemma map_Value_arguments (parts : list gostring) :
  map Value (map (fun p => {| Type_ := TokenTypeArgument; Value := p |}) parts)
  = parts.
Proof. induction parts; simpl; congruence. Qed.

(** ** C1: round trip *)

(** Where the round trip holds.  For every command line in which every
    white space is a single ASCII space between two other runes, also
    inside quotes, [Tokenize] succeeds and [Render] of its tokens is the
    command line. *)
Lemma Render_Tokenize (s : gostring) (profile : Profile) :
  plainlySpaced s = true ->
  exists tokens,
    Tokenize s profile = (tokens, None) /\ Render tokens = s.
Proof.
  intros H. unfold Tokenize.
  pose proof (Join_fields_from s [] H) as HJ. simpl in HJ.
  pose proof (singleSpaced_fields s H) as Hne.
  fold (Fields s) in HJ, Hne.
  destruct (Fields s) as [|p0 rest] eqn:HF; [congruence|].
  eexists. split; [reflexivity|].
  unfold Render. simpl map. now rewrite map_Value_arguments.
Qed.

Lemma Render_Tokenize_witness :
  plainlySpaced (str "cmd.exe /c 'echo a b' -x") = true /\
  exists tokens,
    Tokenize (str "cmd.exe /c 'echo a b' -x") certutilProfile = (tokens, None)
    /\ Render tokens = str "cmd.exe /c 'echo a b' -x".
Proof.
  split; [reflexivity|].
  apply (Render_Tokenize (str "cmd.exe /c 'echo a b' -x") certutilProfile).
  reflexivity.
Defined.

(** The condition of the round trip is the exact one: the fields of any
    text are not empty and hold no white space, so a text that comes back
    from [Tokenize] and [Render] is singly spaced. *)
Lemma fields_from_plain (s cur : gostring) :
  forallb (fun r => negb (IsSpace r)) cur = true ->
  Forall (fun f => f <> [] /\ forallb (fun r => negb (IsSpace r)) f = true)
    (fields_from cur s).
Proof.
  revert cur. induction s as [|r s IH]; intros cur Hcur; simpl.
  - destruct cur as [|c cur]; constructor; [|constructor].
    split; [|now rewrite forallb_rev].
    intros E. apply (f_equal (@length rune)) in E.
    rewrite length_rev in E. discriminate.
  - destruct (IsSpace r) eqn:Hr.
    + destruct cur as [|c cur]; [now apply IH|].
      constructor; [|now apply IH].
      split; [|now rewrite forallb_rev].
      intros E. apply (f_equal (@length rune)) in E.
      rewrite length_rev in E. discriminate.
    + apply IH. simpl. now rewrite Hr.
Qed.

Lemma singleSpaced_field (f rest : gostring) (afterSpace : bool) :
  f <> [] -> forallb (fun r => negb (IsSpace r)) f = true ->
  singleSpaced afterSpace (f ++ rest) = singleSpaced false rest.
Proof.
  revert afterSpace. induction f as [|r f IH]; intros b Hne Hf; [congruence|].
  simpl in *. apply andb_prop in Hf as [Hr Hf].
  apply negb_true_iff in Hr. rewrite Hr.
  destruct f as [|r' f]; [reflexivity|]. now apply IH.
Qed.

Lemma singleSpaced_Join (fs : list gostring) (afterSpace : bool) :
  fs <> [] ->
  Forall (fun f => f <> [] /\ forallb (fun r => negb (IsSpace r)) f = true)
    fs ->
  singleSpaced afterSpace (Join fs (str " ")) = true.
Proof.
  revert afterSpace.
  induction fs as [|f fs IH]; intros b Hne HF; [congruence|].
  inversion HF as [|? ? [Hf1 Hf2] HF']; subst.
  destruct fs as [|f' fs].
  - simpl. rewrite <- (app_nil_r f). now rewrite singleSpaced_field.
  - rewrite Join_cons by discriminate.
    rewrite singleSpaced_field by assumption.
    change (singleSpaced true (Join (f' :: fs) (str " ")) = true).
    now apply IH.
Qed.

Lemma Render_Tokenize_only_plainlySpaced (s : gostring) (profile : Profile)
  (tokens : list Token) :
  Tokenize s profile = (tokens, None) -> Render tokens = s ->
  plainlySpaced s = true.
Proof.
  unfold Tokenize, Render.
  pose proof (fields_from_plain s [] eq_refl) as HF. fold (Fields s) in HF.
  destruct (Fields s) as [|p0 rest]; [discriminate|].
  intros [= <-]. simpl map. rewrite map_Value_arguments. intros <-.
  now apply singleSpaced_Join.
Qed.

(** C1.  The command [echo "a  b"] is quote-balanced, has no unusual
    white space outside of its quoted field, and [Tokenize] accepts it with
    any profile.  [Tokenize] splits the quoted field at its two spaces into
    the tokens ["a] and [b"], and [Render] of the tokens is [echo "a b"],
    with one space in the quoted field: the round trip loses a space. *)
Theorem Render_Tokenize_quotedEcho (profile : Profile) :
  quoteBalanced quotedEcho = true /\
  plainlySpaced (outsideQuotes false quotedEcho) = true /\
  Tokenize quotedEcho profile
  = ([ {| Type_ := TokenTypeCommand; Value := str "echo" |};
       {| Type_ := TokenTypeArgument; Value := quote :: str "a" |};
       {| Type_ := TokenTypeArgument; Value := str "b" ++ [quote] |} ], None) /\
  Render (fst (Tokenize quotedEcho profile)) = quotedEchoJoined /\
  Render (fst (Tokenize quotedEcho profile)) <> quotedEcho.
Proof.
  assert (HT : Tokenize quotedEcho profile
               = ([ {| Type_ := TokenTypeCommand; Value := str "echo" |};
                    {| Type_ := TokenTypeArgument; Value := quote :: str "a" |};
                    {| Type_ := TokenTypeArgument;
                       Value := str "b" ++ [quote] |} ], None))
    by reflexivity.
  split; [reflexivity|]. split; [reflexivity|]. split; [exact HT|].
  rewrite HT. split; [reflexivity|].
  intros E. apply (f_equal (@length rune)) in E. vm_compute in E.
  discriminate.
Qed.

(** Every token after the first is an Argument token, whatever the field
    holds and whatever the profile declares. *)
Lemma Tokenize_types (command : gostring) (profile : Profile)
  (tokens : list Token) (i : nat) (t : Token) :
  Tokenize command profile = (tokens, None) ->
  tokens !! S i = Some t -> Type_ t = TokenTypeArgument.
Proof.
  unfold Tokenize. destruct (Fields command) as [|p0 rest]; [discriminate|].
  intros [= <-]. simpl. rewrite list_lookup_fmap.
  destruct (rest !! i); simpl; [|discriminate]. now intros [= <-].
Qed.

(** ** C2: scenario A *)

(** C2.  On scenario A, with [-f] declared with one value, [Tokenize]
    returns the URL that follows [-f] and the last field as Argument
    tokens: the field after the flag is not a Value token. *)
Theorem Tokenize_scenarioA :
  Tokenize scenarioA certutilProfile =
    ([ {| Type_ := TokenTypeCommand; Value := str "certutil.exe" |};
       {| Type_ := TokenTypeArgument; Value := str "-urlcache" |};
       {| Type_ := TokenTypeArgument; Value := str "-f" |};
       {| Type_ := TokenTypeArgument; Value := str "https://example.com" |};
       {| Type_ := TokenTypeArgument; Value := str "output.bin" |} ], None)
  /\ TokenTypeArgument <> TokenTypeValue.
Proof. split; [reflexivity | discriminate]. Qed.

(** ** C9: profile selection *)

(** C9.  [pickProfile] returns the first profile of the file.  On a file
    that lists a Windows profile and then a Linux profile, the policy of
    the design document selects the Linux profile for a Linux host, and
    [pickProfile] selects the Windows profile. *)
Theorem pickProfile_first :
  (forall pf : ProfileFile, pickProfile pf = Profiles pf !! 0%nat) /\
  let pf := fileOf [profileOn "windows" noParameters;
                    profileOn "linux" noParameters] in
  pickProfile pf = Some (profileOn "windows" noParameters) /\
  pickProfile_byPlatform "linux" pf = Some (profileOn "linux" noParameters) /\
  profileOn "windows" noParameters <> profileOn "linux" noParameters.
Proof.
  split; [reflexivity|]. simpl. repeat split; discriminate.
Qed.

(** ** C4: hard failures *)

Lemma fields_from_nil_iff (s : gostring) :
  fields_from [] s = [] <-> forallb IsSpace s = true.
Proof.
  induction s as [|r s IH]; simpl; [tauto|].
  destruct (IsSpace r); simpl; [exact IH|].
  split; [|discriminate]. intros H. now apply fields_from_cons_nonempty in H.
Qed.

Lemma dropSpaces_nil_iff (s : gostring) :
  dropSpaces s = [] <-> forallb IsSpace s = true.
Proof.
  induction s as [|r s IH]; simpl; [tauto|].
  destruct (IsSpace r); simpl; [exact IH|]. split; discriminate.
Qed.

Lemma dropSpaces_all_space (s : gostring) :
  forallb IsSpace (dropSpaces s) = true -> dropSpaces s = [].
Proof.
  induction s as [|r s IH]; simpl; [reflexivity|].
  destruct (IsSpace r) eqn:Hr; [exact IH|].
  simpl. rewrite Hr. discriminate.
Qed.

(** The command has no field exactly when trimming leaves nothing. *)
Lemma Fields_nil_TrimSpace (s : gostring) :
  Fields s = [] <-> TrimSpace s = [].
Proof.
  unfold Fields, TrimSpace. rewrite fields_from_nil_iff. split.
  - intros H. apply dropSpaces_nil_iff in H. now rewrite H.
  - intros H.
    assert (Hd : dropSpaces (rev (dropSpaces s)) = []).
    { destruct (dropSpaces (rev (dropSpaces s))); [reflexivity|].
      simpl in H. now destruct (rev l). }
    apply dropSpaces_nil_iff in Hd. rewrite forallb_rev in Hd.
    apply dropSpaces_all_space in Hd. now apply dropSpaces_nil_iff.
Qed.


(** ** The loop over the modifiers *)

Lemma applyAll_app (profile : Profile) (enabled : gmap string bool)
  (pre post : list Modifier) (st : pipeline) :
  applyAll profile enabled (pre ++ post) st
  = applyAll profile enabled post (applyAll profile enabled pre st).
Proof. unfold applyAll. apply fold_left_app. Qed.

(** What a result reports, it still reports after one more round. *)
Lemma applyModifier_mono (profile : Profile) (enabled : gmap string bool)
  (st : pipeline) (m : Modifier) (name : string) :
  let st' := applyModifier profile enabled st m in
  (name ∈ Applied (result_ st) -> name ∈ Applied (result_ st')) /\
  (failed name (result_ st) -> failed name (result_ st')).
Proof.
  unfold applyModifier, failed.
  destruct (negb _); [tauto|].
  destruct (Modifiers _ !! _) as [rawCfg|]; [|tauto].
  destruct (Apply m _ _ _) as [[modified [e|]] g']; simpl.
  - destruct (errors_Is e ErrNotImplemented); simpl.
    + rewrite elem_of_app. tauto.
    + rewrite lookup_insert_is_Some'. tauto.
  - rewrite elem_of_app. tauto.
Qed.

Lemma applyAll_mono (profile : Profile) (enabled : gmap string bool)
  (mods : list Modifier) (st : pipeline) (name : string) :
  let st' := applyAll profile enabled mods st in
  (name ∈ Applied (result_ st) -> name ∈ Applied (result_ st')) /\
  (failed name (result_ st) -> failed name (result_ st')).
Proof.
  revert st. induction mods as [|m mods IH]; intros st; simpl; [tauto|].
  destruct (IH (applyModifier profile enabled st m)) as [IH1 IH2].
  destruct (applyModifier_mono profile enabled st m name) as [H1 H2].
  simpl in *. split; auto.
Qed.

(** A round on an enabled, configured modifier reports it. *)
Lemma applyModifier_reports (profile : Profile) (enabled : gmap string bool)
  (st : pipeline) (m : Modifier) :
  enabled !! Name m = Some true ->
  is_Some (Modifiers (Parameters profile) !! Name m) ->
  let st' := applyModifier profile enabled st m in
  reported (Name m) (result_ st') /\
  (alwaysFails m -> failed (Name m) (result_ st')).
Proof.
  intros He [rawCfg Hc]. unfold applyModifier, reported, failed, alwaysFails.
  rewrite He, Hc. simpl.
  destruct (Apply m _ _ _) as [[modified [e|]] g'] eqn:HA; simpl.
  - destruct (errors_Is e ErrNotImplemented); simpl.
    + rewrite elem_of_app, list_elem_of_singleton. tauto.
    + rewrite lookup_insert_is_Some'. tauto.
  - rewrite elem_of_app, list_elem_of_singleton. split; [tauto|].
    intros Hf. specialize (Hf (tokens_ st) rawCfg (rng_ st)).
    rewrite HA in Hf. now elim Hf.
Qed.

(** The loop reports every enabled, configured modifier of its list. *)
Lemma applyAll_reports (profile : Profile) (enabled : gmap string bool)
  (mods : list Modifier) (st : pipeline) (m : Modifier) :
  m ∈ mods ->
  enabled !! Name m = Some true ->
  is_Some (Modifiers (Parameters profile) !! Name m) ->
  let st' := applyAll profile enabled mods st in
  reported (Name m) (result_ st') /\
  (alwaysFails m -> failed (Name m) (result_ st')).
Proof.
  intros Hin He Hc. revert st.
  induction mods as [|m0 mods IH]; intros st; [now apply elem_of_nil in Hin|].
  apply elem_of_cons in Hin as [<-|Hin]; simpl.
  - destruct (applyModifier_reports profile enabled st m He Hc) as [H1 H2].
    destruct (applyAll_mono profile enabled mods
                (applyModifier profile enabled st m) (Name m)) as [M1 M2].
    simpl in *. unfold reported in *. split; [tauto|auto].
  - apply (IH Hin).
Qed.

(** A name whose modifiers always fail is never added to [Applied]. *)
Lemma applyAll_not_applied (profile : Profile) (enabled : gmap string bool)
  (mods : list Modifier) (st : pipeline) (name : string) :
  (forall m, m ∈ mods -> Name m = name -> alwaysFails m) ->
  name ∈ Applied (result_ (applyAll profile enabled mods st)) ->
  name ∈ Applied (result_ st).
Proof.
  revert st. induction mods as [|m mods IH]; intros st Hf; simpl; [tauto|].
  intros H. apply IH in H.
  2:{ intros m' Hm'. apply Hf. now apply elem_of_cons; right. }
  revert H. unfold applyModifier.
  destruct (negb _); [tauto|].
  destruct (Modifiers _ !! _) as [rawCfg|]; [|tauto].
  destruct (Apply m _ _ _) as [[modified [e|]] g'] eqn:HA; simpl.
  - now destruct (errors_Is e ErrNotImplemented).
  - rewrite elem_of_app, list_elem_of_singleton. intros [H|H]; [exact H|].
    exfalso. symmetry in H.
    apply (Hf m (ltac:(apply elem_of_cons; now left)) H
             (tokens_ st) rawCfg (rng_ st)).
    now rewrite HA.
Qed.

(** ** C3: fault containment *)

(** The rounds of the loop.  Take the loop of [Obfuscate] over any list of
    modifiers, and a modifier [m] of the list that is enabled and
    configured.  When [Apply]
    returns an error the tokens stay as they were, and the name goes to
    [Skipped] for [ErrNotImplemented] and to [Errors] for any other error;
    when it succeeds the tokens become its output and the name goes to
    [Applied].  In each case the loop goes on with the modifiers after [m],
    and the result reports each one of them that is enabled and
    configured. *)
Lemma applyAll_fault_containment (profile : Profile)
  (enabled : gmap string bool) (pre post : list Modifier) (m : Modifier)
  (rawCfg : RawMessage) (st0 : pipeline)
  (modified : list Token) (err : option error) (g' : rng) :
  enabled !! Name m = Some true ->
  Modifiers (Parameters profile) !! Name m = Some rawCfg ->
  Apply m (tokens_ (applyAll profile enabled pre st0)) rawCfg
    (rng_ (applyAll profile enabled pre st0)) = ((modified, err), g') ->
  let st := applyAll profile enabled pre st0 in
  let st' := applyModifier profile enabled st m in
  let final := applyAll profile enabled (pre ++ m :: post) st0 in
  final = applyAll profile enabled post st' /\
  rng_ st' = g' /\
  match err with
  | Some e =>
      tokens_ st' = tokens_ st /\
      Applied (result_ st') = Applied (result_ st) /\
      if errors_Is e ErrNotImplemented then
        Skipped (result_ st') = Skipped (result_ st) ++ [Name m] /\
        Errors (result_ st') = Errors (result_ st)
      else
        Skipped (result_ st') = Skipped (result_ st) /\
        Errors (result_ st') = <[Name m := e]> (Errors (result_ st))
  | None =>
      tokens_ st' = modified /\
      Applied (result_ st') = Applied (result_ st) ++ [Name m] /\
      Skipped (result_ st') = Skipped (result_ st) /\
      Errors (result_ st') = Errors (result_ st)
  end /\
  (forall m', m' ∈ post ->
     enabled !! Name m' = Some true ->
     is_Some (Modifiers (Parameters profile) !! Name m') ->
     reported (Name m') (result_ final)).
Proof.
  intros He Hc HA st st' final.
  assert (Hfinal : final = applyAll profile enabled post st').
  { unfold final. now rewrite applyAll_app. }
  split; [exact Hfinal|].
  unfold st', applyModifier. fold st in HA |- *. rewrite He, Hc. simpl.
  rewrite HA. split; [|split].
  - destruct err as [e|]; [destruct (errors_Is e ErrNotImplemented)|];
      reflexivity.
  - destruct err as [e|]; [destruct (errors_Is e ErrNotImplemented)|];
      simpl; auto.
  - intros m' Hin He' Hc'. rewrite Hfinal.
    now apply applyAll_reports.
Qed.

Lemma applyAll_fault_containment_witness :
  let CI := @CharacterInsertion exampleLib in
  let RC := @RandomCase exampleLib in
  let st' := applyModifier exampleProfile bothEnabled start CI in
  tokens_ st' = [urlcache] /\
  Skipped (result_ st') = ["CharacterInsertion"] /\
  reported "RandomCase"
    (result_ (applyAll exampleProfile bothEnabled [CI; RC] start)).
Proof.
  intros CI RC st'.
  pose proof (applyAll_fault_containment exampleProfile bothEnabled
                [] [RC] CI "arguments:1.0:empty pool" start
                [urlcache] (Some ErrNotImplemented) 0%nat
                eq_refl eq_refl eq_refl) as H.
  simpl in H. destruct H as (_ & _ & (Ht & _ & Hs & _) & Hr).
  split; [exact Ht|]. split; [exact Hs|].
  apply (Hr RC); [repeat constructor | reflexivity | now eexists].
Defined.

(** What is listed under [Skipped] or [Errors] stays listed in the rounds
    that follow. *)
Lemma applyModifier_keeps (profile : Profile) (enabled : gmap string bool)
  (st : pipeline) (m : Modifier) (name : string) :
  let st' := applyModifier profile enabled st m in
  (name ∈ Skipped (result_ st) -> name ∈ Skipped (result_ st')) /\
  (is_Some (Errors (result_ st) !! name) ->
   is_Some (Errors (result_ st') !! name)).
Proof.
  unfold applyModifier.
  destruct (negb _); [tauto|].
  destruct (Modifiers _ !! _) as [rawCfg|]; [|tauto].
  destruct (Apply m _ _ _) as [[modified [e|]] g']; simpl; [|tauto].
  destruct (errors_Is e ErrNotImplemented); simpl.
  - rewrite elem_of_app. tauto.
  - rewrite lookup_insert_is_Some'. tauto.
Qed.

Lemma applyAll_keeps (profile : Profile) (enabled : gmap string bool)
  (mods : list Modifier) (st : pipeline) (name : string) :
  let st' := applyAll profile enabled mods st in
  (name ∈ Skipped (result_ st) -> name ∈ Skipped (result_ st')) /\
  (is_Some (Errors (result_ st) !! name) ->
   is_Some (Errors (result_ st') !! name)).
Proof.
  revert st. induction mods as [|m mods IH]; intros st; simpl; [tauto|].
  destruct (IH (applyModifier profile enabled st m)) as [IH1 IH2].
  destruct (applyModifier_keeps profile enabled st m name) as [H1 H2].
  simpl in *. split; auto.
Qed.

(** With a first profile in the file and a field in the command,
    [Obfuscate] is the loop over [All] from the tokens of the command,
    followed by [Render]. *)
Lemma Obfuscate_rounds (R : Registry) (command : gostring) (pf : ProfileFile)
  (profile : Profile) (tokens : list Token) (enabled : gmap string bool)
  (g : rng) :
  pickProfile pf = Some profile ->
  Tokenize command profile = (tokens, None) ->
  let final := applyAll profile enabled (All R) (startOf tokens g) in
  Obfuscate R command (Some pf) enabled g
  = Some ((resultOf final, None), rng_ final).
Proof.
  intros Hpick HT. unfold Obfuscate. rewrite Hpick.
  unfold pickProfile in Hpick.
  destruct (Profiles pf) as [|p ps]; [discriminate|].
  cbn [length Nat.eqb mbind option_bind]. rewrite HT. reflexivity.
Qed.

(** C3.  Take a run of [Obfuscate] on a file with a first profile and a
    command that [Tokenize] accepts, with any registry, and a registered
    modifier [m] that is enabled and configured; [st] is the state of the
    loop when the round of [m] starts.  When [Apply] returns an error the
    working tokens stay as they were and nothing is added to [Applied]; the
    name goes to [Skipped] for [ErrNotImplemented] and to [Errors], as the
    key of the error, for any other error.  When [Apply] succeeds the
    working tokens become its output and the name goes to [Applied].  In
    each case the loop goes on with every modifier registered after [m],
    the run returns the rendering of the last working tokens with a nil
    error, and its result still lists [m] where the round put it and
    reports every later modifier that is enabled and configured. *)
Theorem Obfuscate_fault_containment (R : Registry) (command : gostring)
  (pf : ProfileFile) (profile : Profile) (tokens : list Token)
  (enabled : gmap string bool) (g : rng)
  (pre post : list Modifier) (m : Modifier) (rawCfg : RawMessage)
  (modified : list Token) (err : option error) (g1 : rng) :
  pickProfile pf = Some profile ->
  Tokenize command profile = (tokens, None) ->
  All R = pre ++ m :: post ->
  enabled !! Name m = Some true ->
  Modifiers (Parameters profile) !! Name m = Some rawCfg ->
  Apply m (tokens_ (applyAll profile enabled pre (startOf tokens g))) rawCfg
    (rng_ (applyAll profile enabled pre (startOf tokens g)))
  = ((modified, err), g1) ->
  let st := applyAll profile enabled pre (startOf tokens g) in
  let st' := applyModifier profile enabled st m in
  let final := applyAll profile enabled post st' in
  Obfuscate R command (Some pf) enabled g
  = Some ((resultOf final, None), rng_ final) /\
  rng_ st' = g1 /\
  match err with
  | Some e =>
      tokens_ st' = tokens_ st /\
      Applied (result_ st') = Applied (result_ st) /\
      if errors_Is e ErrNotImplemented then
        Skipped (result_ st') = Skipped (result_ st) ++ [Name m] /\
        Errors (result_ st') = Errors (result_ st) /\
        Name m ∈ Skipped (resultOf final)
      else
        Skipped (result_ st') = Skipped (result_ st) /\
        Errors (result_ st') = <[Name m := e]> (Errors (result_ st)) /\
        is_Some (Errors (resultOf final) !! Name m)
  | None =>
      tokens_ st' = modified /\
      Applied (result_ st') = Applied (result_ st) ++ [Name m] /\
      Skipped (result_ st') = Skipped (result_ st) /\
      Errors (result_ st') = Errors (result_ st) /\
      Name m ∈ Applied (resultOf final)
  end /\
  (forall m', m' ∈ post ->
     enabled !! Name m' = Some true ->
     is_Some (Modifiers (Parameters profile) !! Name m') ->
     reported (Name m') (resultOf final)).
Proof.
  intros Hpick HT HAll He Hc HA st st' final.
  split.
  { rewrite (Obfuscate_rounds R command pf profile tokens enabled g Hpick HT).
    cbv zeta. rewrite HAll, applyAll_app. reflexivity. }
  destruct (applyAll_mono profile enabled post st' (Name m)) as [MA _].
  destruct (applyAll_keeps profile enabled post st' (Name m)) as [MS ME].
  fold final in MA, MS, ME. cbn [resultOf Applied Skipped Errors].
  revert MA MS ME.
  unfold st', applyModifier. fold st in HA |- *. rewrite He, Hc. simpl.
  rewrite HA. intros MA MS ME. split; [|split].
  - destruct err as [e|]; [destruct (errors_Is e ErrNotImplemented)|];
      reflexivity.
  - destruct err as [e|]; [destruct (errors_Is e ErrNotImplemented)|];
      cbn [tokens_ result_ Applied Skipped Errors] in *; repeat split.
    + apply MS. rewrite elem_of_app, list_elem_of_singleton. now right.
    + apply ME. rewrite lookup_insert_is_Some'. now left.
    + apply MA. rewrite elem_of_app, list_elem_of_singleton. now right.
  - intros m' Hin He' Hc'.
    exact (proj1 (applyAll_reports profile enabled post _ m' Hin He' Hc')).
Qed.

Lemma Obfuscate_fault_containment_witness :
  exists res : ObfuscateResult,
    Obfuscate (@builtin exampleLib) (str "a -b")
      (Some (fileOf [exampleProfile])) bothEnabled 0%nat
    = Some ((res, None), 2%nat) /\
    "CharacterInsertion" ∈ Skipped res /\
    reported "RandomCase" res.
Proof.
  pose proof (Obfuscate_fault_containment (@builtin exampleLib) (str "a -b")
                (fileOf [exampleProfile]) exampleProfile
                [ {| Type_ := TokenTypeCommand; Value := str "a" |};
                  {| Type_ := TokenTypeArgument; Value := str "-b" |} ]
                bothEnabled 0%nat []
                [ FilePathTransformer; OptionCharSubstitution; QuoteInsertion;
                  @RandomCase exampleLib; Regex; ReorderArgs; Sed; Shorthands;
                  UrlTransformer ]
                (@CharacterInsertion exampleLib) "arguments:1.0:empty pool"
                [ {| Type_ := TokenTypeCommand; Value := str "a" |};
                  {| Type_ := TokenTypeArgument; Value := str "-b" |} ]
                (Some ErrNotImplemented) 0%nat
                eq_refl eq_refl eq_refl eq_refl eq_refl
                eq_refl) as H.
  cbv zeta in H. destruct H as (HO & _ & (_ & _ & HS) & HR).
  cbn [errors_Is] in HS. destruct HS as (_ & _ & HS).
  eexists. split; [|split; [exact HS|]].
  - rewrite HO. f_equal.
  - apply (HR (@RandomCase exampleLib));
      [repeat constructor | reflexivity | now eexists].
Defined.

(** ** RandomCase *)

Lemma Qltb_below_one (q : Q) : (q < 1)%Q -> Qltb q (1 # 1) = true.
Proof. unfold Qlt, Qltb. simpl. intros H. apply Z.ltb_lt. exact H. Qed.

Lemma Qltb_not_below_zero (q : Q) : (0 <= q)%Q -> Qltb q (0 # 1) = false.
Proof. unfold Qle, Qltb. simpl. intros H. apply Z.ltb_ge. exact H. Qed.

Section RandomCase.
Context `{GoLib}.
Hypothesis draws : Float64_in_range.

Lemma flipRunes_never (runes : list rune) (g : rng) :
  flipRunes f0 runes g = (runes, (g + length runes)%nat).
Proof.
  revert g. induction runes as [|r runes IH]; intros g; simpl.
  - f_equal. lia.
  - rewrite (Qltb_not_below_zero _ (proj1 (draws g))), IH.
    f_equal. lia.
Qed.

Lemma flipRunes_always (runes : list rune) (g : rng) :
  flipRunes f1 runes g = (map flipCase runes, (g + length runes)%nat).
Proof.
  revert g. induction runes as [|r runes IH]; intros g; simpl.
  - f_equal. lia.
  - rewrite (Qltb_below_one _ (proj2 (draws g))), IH.
    f_equal. lia.
Qed.

Lemma flipTokens_never (appliesTo : list string) (tokens : list Token)
  (g : rng) :
  fst (flipTokens appliesTo f0 tokens g) = tokens.
Proof.
  revert g. induction tokens as [|t tokens IH]; intros g; simpl; [reflexivity|].
  destruct (negb _).
  - specialize (IH g). destruct (flipTokens _ _ tokens g). simpl in *.
    congruence.
  - rewrite flipRunes_never.
    specialize (IH (g + length (Value t))%nat).
    destruct (flipTokens _ _ tokens _). simpl in *. subst. now destruct t.
Qed.

Lemma flipTokens_always (appliesTo : list string) (tokens : list Token)
  (g : rng) :
  fst (flipTokens appliesTo f1 tokens g)
  = map (fun t => if Contains appliesTo (Type_ t) then flipAll t else t)
      tokens.
Proof.
  revert g. induction tokens as [|t tokens IH]; intros g; simpl; [reflexivity|].
  destruct (Contains appliesTo (Type_ t)); simpl.
  - rewrite flipRunes_always.
    specialize (IH (g + length (Value t))%nat).
    destruct (flipTokens _ _ tokens _). simpl in *. now subst.
  - specialize (IH g). destruct (flipTokens _ _ tokens g). simpl in *.
    congruence.
Qed.

End RandomCase.

Lemma flipCase_ascii `{GoLib} (r : rune) :
  0 <= r <= 127 ->
  flipCase r
  = if asciiUpper r then r + 32 else if asciiLower r then r - 32 else r.
Proof.
  intros Hr. unfold flipCase, IsUpper, ToLower, ToUpper, asciiUpper, asciiLower.
  repeat match goal with
         | |- context [?a <=? ?b] =>
             destruct (Z.leb_spec a b); simpl; try lia
         end; reflexivity.
Qed.

(** The outer loop keeps the number of tokens and the type of each. *)
Lemma flipTokens_shape `{GoLib} (appliesTo : list string)
  (probability : float64) (tokens : list Token) (g : rng) :
  map Type_ (fst (flipTokens appliesTo probability tokens g))
  = map Type_ tokens.
Proof.
  revert g. induction tokens as [|t tokens IH]; intros g; simpl; [reflexivity|].
  destruct (negb _).
  - specialize (IH g). destruct (flipTokens _ _ tokens g). simpl in *.
    congruence.
  - destruct (flipRunes probability (Value t) g) as [runes g1].
    specialize (IH g1). destruct (flipTokens _ _ tokens g1). simpl in *.
    congruence.
Qed.

(** The outer loop keeps every token whose type is not listed. *)
Lemma flipTokens_ineligible `{GoLib} (appliesTo : list string)
  (probability : float64) (tokens : list Token) (g : rng)
  (i : nat) (t : Token) :
  tokens !! i = Some t ->
  Contains appliesTo (Type_ t) = false ->
  fst (flipTokens appliesTo probability tokens g) !! i = Some t.
Proof.
  revert g i. induction tokens as [|t0 tokens IH]; intros g i Hi Ht;
    [discriminate|]. simpl.
  destruct i as [|i]; simpl in Hi.
  - injection Hi as ->. rewrite Ht. simpl.
    now destruct (flipTokens _ _ tokens g).
  - destruct (negb _).
    + specialize (IH g i Hi Ht). now destruct (flipTokens _ _ tokens g).
    + destruct (flipRunes probability (Value t0) g) as [runes g1].
      specialize (IH g1 i Hi Ht). now destruct (flipTokens _ _ tokens g1).
Qed.

(** ** C5: the boundaries of the probability *)

(** The two boundaries on ASCII.  With Probability "0.0"
    [RandomCase.Apply] returns every token as it was, from every state of
    the generator.  With Probability "1.0" it
    returns every eligible token with each rune through the case flip,
    which, on ASCII, turns a capital into the small letter, a small letter
    into the capital and leaves every other rune, and above ASCII leaves
    every rune that the case tables map to itself; the eligible Argument
    token "-urlcache" becomes "-URLCACHE". *)
Lemma randomcase_probability_boundary `{GoLib} (tokens : list Token)
  (cfg0 cfg1 : RawMessage) (c0 c1 : randomcase.Config) (g : rng) :
  Float64_in_range ->
  strconv_ParseFloat "0.0" = (f0, None) ->
  strconv_ParseFloat "1.0" = (f1, None) ->
  json_Unmarshal_randomcase cfg0 = (c0, None) ->
  Probability (randomcase.Base c0) = "0.0" ->
  json_Unmarshal_randomcase cfg1 = (c1, None) ->
  Probability (randomcase.Base c1) = "1.0" ->
  fst (randomcase_Apply tokens cfg0 g) = (tokens, None) /\
  fst (randomcase_Apply tokens cfg1 g)
  = (map (fun t =>
            if Contains (AppliesTo (randomcase.Base c1)) (Type_ t)
            then flipAll t else t) tokens, None) /\
  (forall r, 0 <= r <= 127 ->
     flipCase r
     = if asciiUpper r then r + 32 else if asciiLower r then r - 32 else r) /\
  (forall r, ToUpper r = r -> ToLower r = r -> flipCase r = r) /\
  (Contains (AppliesTo (randomcase.Base c1)) TokenTypeArgument = true ->
   fst (randomcase_Apply [urlcache] cfg1 g)
   = ([{| Type_ := TokenTypeArgument; Value := str "-URLCACHE" |}], None)).
Proof.
  intros Hd P0 P1 U0 Hp0 U1 Hp1.
  assert (A1 : forall toks,
             fst (randomcase_Apply toks cfg1 g)
             = (map (fun t =>
                       if Contains (AppliesTo (randomcase.Base c1)) (Type_ t)
                       then flipAll t else t) toks, None)).
  { intros toks. unfold randomcase_Apply. rewrite U1, Hp1, P1. simpl.
    pose proof (flipTokens_always Hd (AppliesTo (randomcase.Base c1)) toks g)
      as E.
    destruct (flipTokens _ _ toks g). simpl in *. now subst. }
  split; [|split; [apply A1|split; [intros r; apply flipCase_ascii|split]]].
  2:{ intros r HU HL. unfold flipCase. now destruct (IsUpper r). }
  - unfold randomcase_Apply. rewrite U0, Hp0, P0. simpl.
    pose proof (flipTokens_never Hd (AppliesTo (randomcase.Base c0)) tokens g)
      as E.
    destruct (flipTokens _ _ tokens g). simpl in *. now subst.
  - intros He. rewrite A1. unfold urlcache. cbn [map Type_].
    rewrite He. reflexivity.
Qed.

Lemma randomcase_probability_boundary_witness :
  fst (@randomcase_Apply exampleLib [urlcache] "arguments,values:0.0" 0%nat)
  = ([urlcache], None) /\
  fst (@randomcase_Apply exampleLib [urlcache] "arguments:1.0" 0%nat)
  = ([{| Type_ := TokenTypeArgument; Value := str "-URLCACHE" |}], None).
Proof.
  pose proof (@randomcase_probability_boundary exampleLib [urlcache]
                "arguments,values:0.0" "arguments:1.0"
                {| randomcase.Base := baseConfig ["argument"; "value"] "0.0" |}
                {| randomcase.Base := baseConfig ["argument"] "1.0" |} 0%nat)
    as H.
  destruct H as (H0 & _ & _ & _ & H1); try reflexivity.
  - intros n. simpl. split; [discriminate | reflexivity].
  - split; [exact H0 | apply H1; reflexivity].
Defined.

(** C5.  With Probability "1.0" and an eligible Argument token of the two
    runes U+24D0 and U+00DF, in any library whose case tables hold what
    those of Go hold on the two runes, [RandomCase.Apply] returns the token
    of the runes U+24B6 and U+00DF: the circled letter, which is a symbol
    and not a letter, changed, and the sharp s, which is a letter, did not.
    So it is not the case that every letter of an eligible token changes
    its case and every other rune stays. *)
Theorem randomcase_flips_symbol_keeps_letter `{GoLib} (cfg : RawMessage)
  (c : randomcase.Config) (g : rng) :
  Float64_in_range ->
  strconv_ParseFloat "1.0" = (f1, None) ->
  json_Unmarshal_randomcase cfg = (c, None) ->
  Probability (randomcase.Base c) = "1.0" ->
  Contains (AppliesTo (randomcase.Base c)) TokenTypeArgument = true ->
  unicode_IsUpper_table 9424 = false -> unicode_ToUpper_table 9424 = 9398 ->
  unicode_IsUpper_table 223 = false -> unicode_ToUpper_table 223 = 223 ->
  fst (randomcase_Apply [circledSharp] cfg g) = ([circledCapitalSharp], None) /\
  IsLetter 9424 = Some false /\ 9398 <> 9424 /\
  IsLetter 223 = Some true /\
  ~ flipsLettersOnly.
Proof.
  intros Hd P1 U1 Hp1 He I1 T1 I2 T2.
  assert (HA : fst (randomcase_Apply [circledSharp] cfg g)
               = ([circledCapitalSharp], None)).
  { unfold randomcase_Apply. rewrite U1, Hp1, P1.
    cbn [flt f0 f1 Qltb Qnum Qden Z.mul Z.ltb Z.compare Pos.mul orb].
    unfold circledSharp. cbn [flipTokens Type_ Value]. rewrite He.
    cbn [negb flipRunes Float64 flt f1 fst].
    rewrite !(Qltb_below_one _ (proj2 (Hd _))).
    unfold flipCase, IsUpper, ToUpper. simpl. now rewrite I1, T1, I2, T2. }
  split; [exact HA|]. repeat split; try reflexivity; try discriminate.
  intros Hclaim.
  destruct (Hclaim cfg c [circledSharp] g 0%nat 0%nat circledSharp
              circledCapitalSharp 9424 9398 U1 Hp1 eq_refl He) as [_ Hkeep];
    try reflexivity.
  - now rewrite HA.
  - specialize (Hkeep eq_refl). discriminate.
Qed.

Lemma randomcase_flips_symbol_keeps_letter_witness :
  fst (@randomcase_Apply circledLib [circledSharp] "arguments:1.0" 0%nat)
  = ([circledCapitalSharp], None) /\
  ~ @flipsLettersOnly circledLib.
Proof.
  pose proof (@randomcase_flips_symbol_keeps_letter circledLib "arguments:1.0"
                {| randomcase.Base := baseConfig ["argument"] "1.0" |} 0%nat)
    as H.
  destruct H as (HA & _ & _ & _ & Hn); try reflexivity.
  - intros n. simpl. split; [discriminate | reflexivity].
  - split; [exact HA | exact Hn].
Defined.

(** ** The registered modifiers *)

Lemma All_builtin `{GoLib} :
  All builtin
  = [CharacterInsertion; FilePathTransformer; OptionCharSubstitution;
     QuoteInsertion; RandomCase; Regex; ReorderArgs; Sed; Shorthands;
     UrlTransformer].
Proof. reflexivity. Qed.

(** A registered modifier is [RandomCase] or returns its input together
    with an error that depends on the configuration only. *)
Lemma registered_cases `{GoLib} (m : Modifier) :
  m ∈ All builtin ->
  m = RandomCase \/
  exists fault : RawMessage -> error,
    (forall tokens cfg g,
        Apply m tokens cfg g = ((tokens, Some (fault cfg)), g)) /\
    (forall tokens cfg, Apply_mem m tokens cfg = ret (tokens, Some (fault cfg))).
Proof.
  rewrite All_builtin. intros Hin.
  repeat (apply elem_of_cons in Hin as [->|Hin]);
    try (now apply elem_of_nil in Hin);
    try (now left);
    right;
    try (exists (fun _ => ErrNotImplemented); split; reflexivity).
  exists charinsert_error. split; reflexivity.
Qed.

(** ** C6: count and types *)

(** C6.  For every registered modifier other than ReorderArgs, when
    [Apply] succeeds the returned sequence has the length of the input and
    the same type at every index. *)
Theorem registered_Apply_count_and_types `{GoLib} (m : Modifier)
  (tokens : list Token) (cfg : RawMessage) (g : rng)
  (out : list Token) (g' : rng) :
  m ∈ All builtin ->
  Name m <> "ReorderArgs" ->
  Apply m tokens cfg g = ((out, None), g') ->
  length out = length tokens /\
  (forall i : nat, Type_ <$> out !! i = Type_ <$> tokens !! i).
Proof.
  intros Hin _ HA.
  assert (E : Type_ <$> out = Type_ <$> tokens).
  { change (map Type_ out = map Type_ tokens).
    destruct (registered_cases m Hin) as [->|(fault & Hf & _)].
    - simpl in HA. unfold randomcase_Apply in HA.
      destruct (json_Unmarshal_randomcase cfg) as [cfgM [e|]];
        [discriminate|].
      destruct (strconv_ParseFloat _) as [p [e|]]; [discriminate|].
      destruct (flt p f0 || flt f1 p); [discriminate|].
      pose proof (flipTokens_shape (AppliesTo (randomcase.Base cfgM)) p
                    tokens g) as E.
      destruct (flipTokens _ p tokens g). simpl in E. congruence.
    - rewrite Hf in HA. discriminate. }
  split.
  - rewrite <- (length_fmap Type_ out), E. apply length_fmap.
  - intros i. rewrite <- !list_lookup_fmap. now rewrite E.
Qed.

Lemma registered_Apply_count_and_types_witness :
  length [ {| Type_ := TokenTypeArgument; Value := str "-URLCACHE" |} ]
  = length [urlcache] /\
  (forall i : nat,
      Type_ <$> [ {| Type_ := TokenTypeArgument;
                     Value := str "-URLCACHE" |} ] !! i
      = Type_ <$> [urlcache] !! i).
Proof.
  apply (@registered_Apply_count_and_types exampleLib
           (@RandomCase exampleLib) [urlcache] "arguments:1.0" 0%nat
           [ {| Type_ := TokenTypeArgument; Value := str "-URLCACHE" |} ]
           9%nat).
  - rewrite All_builtin. repeat constructor.
  - discriminate.
  - reflexivity.
Defined.

(** ** C7: eligibility *)

(** C7.  For every registered modifier, a token whose type is not in the
    AppliesTo list of the decoded configuration is returned as it was, for
    every probability and every state of the generator. *)
Theorem registered_Apply_eligibility `{GoLib} (m : Modifier)
  (tokens : list Token) (cfg : RawMessage) (g : rng) (i : nat) (t : Token) :
  m ∈ All builtin ->
  tokens !! i = Some t ->
  (forall c, json_Unmarshal_randomcase cfg = (c, None) ->
             Contains (AppliesTo (randomcase.Base c)) (Type_ t) = false) ->
  fst (fst (Apply m tokens cfg g)) !! i = Some t.
Proof.
  intros Hin Hi He.
  destruct (registered_cases m Hin) as [->|(fault & Hf & _)].
  - simpl. unfold randomcase_Apply.
    destruct (json_Unmarshal_randomcase cfg) as [cfgM [e|]]; [exact Hi|].
    specialize (He cfgM eq_refl).
    destruct (strconv_ParseFloat _) as [p [e|]]; [exact Hi|].
    destruct (flt p f0 || flt f1 p); [exact Hi|].
    pose proof (flipTokens_ineligible (AppliesTo (randomcase.Base cfgM)) p
                  tokens g i t Hi He) as E.
    now destruct (flipTokens _ p tokens g).
  - now rewrite Hf.
Qed.

Lemma registered_Apply_eligibility_witness :
  fst (fst (Apply (@RandomCase exampleLib)
              [ {| Type_ := TokenTypeCommand; Value := str "certutil.exe" |};
                urlcache ] "arguments:1.0" 0%nat)) !! 0%nat
  = Some {| Type_ := TokenTypeCommand; Value := str "certutil.exe" |}.
Proof.
  apply (@registered_Apply_eligibility exampleLib).
  - rewrite All_builtin. repeat constructor.
  - reflexivity.
  - intros c [= <-]. reflexivity.
Defined.

(** ** The modifiers on the memory *)

Lemma lookup_last {X : Type} (A : list X) (x : X) :
  (A ++ [x]) !! length A = Some x.
Proof. induction A; simpl; auto. Qed.

Lemma lookup_old {X : Type} (A : list X) (x a : X) (l : nat) :
  A !! l = Some a -> (A ++ [x]) !! l = Some a.
Proof. apply lookup_app_l_Some. Qed.

Lemma insert_last {X : Type} (A : list X) (x y : X) :
  <[length A := y]> (A ++ [x]) = A ++ [y].
Proof. induction A; simpl; congruence. Qed.

Lemma lookup_at {X : Type} (pre rest : list X) (x : X) :
  (pre ++ x :: rest) !! length pre = Some x.
Proof. induction pre; simpl; auto. Qed.

Lemma insert_at {X : Type} (pre rest : list X) (x y : X) :
  <[length pre := y]> (pre ++ x :: rest) = pre ++ y :: rest.
Proof. induction pre; simpl; congruence. Qed.

(** The first three statements of [RandomCase.Apply]: after them the new
    array [out] holds the tokens of the input, and nothing else changed. *)
Lemma copy_of_input {X : Type} (A : list (list Token)) (g : rng)
  (tokens : loc) (toks : list Token) (k : nat -> loc -> M X) :
  A !! tokens = Some toks ->
  (let* n := slice_len tokens in
   let* out := make n in
   let* _ := copy out tokens in
   k n out) {| arrays := A; seed := g |}
  = k (length toks) (length A) {| arrays := A ++ [toks]; seed := g |}.
Proof.
  intros Hs. unfold bind, slice_len, make, copy. cbn [arrays seed].
  rewrite Hs, lookup_last, (lookup_old _ _ _ _ Hs).
  rewrite length_replicate, Nat.min_id, insert_last.
  rewrite firstn_all, drop_replicate, Nat.sub_diag. simpl.
  now rewrite app_nil_r.
Qed.

(** One round of the loop of [RandomCase.Apply] at index [length pre]:
    [pre0] and [pre] are the tokens before that index in the input and in
    [out]. *)
Lemma randomcase_round_spec `{GoLib} (appliesTo : list string)
  (probability : float64) (A : list (list Token)) (tokens : loc)
  (t : Token) (rest pre0 pre : list Token) (g : rng) :
  length pre0 = length pre ->
  A !! tokens = Some (pre0 ++ t :: rest) ->
  randomcase_round appliesTo probability tokens (length A) (length pre)
    {| arrays := A ++ [pre ++ t :: rest]; seed := g |}
  = Some (tt,
          if negb (Contains appliesTo (Type_ t)) then
            {| arrays := A ++ [pre ++ t :: rest]; seed := g |}
          else
            {| arrays :=
                 A ++ [pre ++ {| Type_ := Type_ t;
                                 Value := fst (flipRunes probability
                                                 (Value t) g) |} :: rest];
               seed := snd (flipRunes probability (Value t) g) |}).
Proof.
  intros Hlen Hs. unfold randomcase_round, bind at 1, index. cbn [arrays].
  rewrite (lookup_old _ _ _ _ Hs), <- Hlen, lookup_at, Hlen.
  destruct (negb (Contains appliesTo (Type_ t))); [reflexivity|].
  unfold bind, drawing, setValue. cbn [arrays seed].
  destruct (flipRunes probability (Value t) g) as [runes g1].
  cbn [arrays seed fst snd].
  rewrite lookup_last, lookup_at, !insert_at. reflexivity.
Qed.

(** The loop of [RandomCase.Apply] from index [length pre] on. *)
Lemma forRange_flip `{GoLib} (appliesTo : list string) (probability : float64)
  (A : list (list Token)) (tokens : loc) (rest pre0 pre : list Token)
  (g : rng) :
  length pre0 = length pre ->
  A !! tokens = Some (pre0 ++ rest) ->
  forRange (length pre) (length rest)
    (randomcase_round appliesTo probability tokens (length A))
    {| arrays := A ++ [pre ++ rest]; seed := g |}
  = Some (tt, {| arrays :=
                   A ++ [pre ++ fst (flipTokens appliesTo probability rest g)];
                 seed := snd (flipTokens appliesTo probability rest g) |}).
Proof.
  revert pre0 pre g.
  induction rest as [|t rest IH]; intros pre0 pre g Hlen Hs; [reflexivity|].
  cbn [forRange length flipTokens]. unfold bind.
  rewrite (randomcase_round_spec appliesTo probability A tokens t rest
             pre0 pre g Hlen Hs).
  assert (Hs' : A !! tokens = Some ((pre0 ++ [t]) ++ rest))
    by now rewrite <- app_assoc.
  destruct (negb (Contains appliesTo (Type_ t))).
  - assert (Hlen' : length (pre0 ++ [t]) = length (pre ++ [t]))
      by (rewrite !length_app; simpl; lia).
    specialize (IH (pre0 ++ [t]) (pre ++ [t]) g Hlen' Hs').
    rewrite length_app, Nat.add_1_r, <- app_assoc in IH. simpl in IH.
    rewrite IH. destruct (flipTokens appliesTo probability rest g).
    simpl. now rewrite <- app_assoc.
  - destruct (flipRunes probability (Value t) g) as [runes g1]. simpl.
    set (t' := {| Type_ := Type_ t; Value := runes |}).
    assert (Hlen' : length (pre0 ++ [t]) = length (pre ++ [t']))
      by (rewrite !length_app; simpl; lia).
    specialize (IH (pre0 ++ [t]) (pre ++ [t']) g1 Hlen' Hs').
    rewrite length_app, Nat.add_1_r, <- app_assoc in IH. simpl in IH.
    rewrite IH. destruct (flipTokens appliesTo probability rest g1).
    simpl. now rewrite <- app_assoc.
Qed.

(** [RandomCase.Apply] on the memory never panics, writes to no array that
    existed before the call, and returns a slice that holds what [Apply]
    returns on the contents. *)
Lemma randomcase_Apply_mem_spec `{GoLib} (A : list (list Token)) (g : rng)
  (tokens : loc) (toks : list Token) (cfg : RawMessage) :
  A !! tokens = Some toks ->
  exists (out : loc) (last : list Token),
    randomcase_Apply_mem tokens cfg {| arrays := A; seed := g |}
    = Some ((out, snd (fst (randomcase_Apply toks cfg g))),
            {| arrays := A ++ [last];
               seed := snd (randomcase_Apply toks cfg g) |}) /\
    (A ++ [last]) !! out = Some (fst (fst (randomcase_Apply toks cfg g))).
Proof.
  intros Hs. unfold randomcase_Apply_mem, randomcase_Apply.
  rewrite (copy_of_input A g tokens toks _ Hs).
  destruct (json_Unmarshal_randomcase cfg) as [cfgM [e|]].
  { exists tokens, toks. split; [reflexivity | now apply lookup_old]. }
  destruct (strconv_ParseFloat _) as [p [e|]].
  { exists tokens, toks. split; [reflexivity | now apply lookup_old]. }
  destruct (flt p f0 || flt f1 p).
  { exists tokens, toks. split; [reflexivity | now apply lookup_old]. }
  unfold bind at 1.
  rewrite (forRange_flip (AppliesTo (randomcase.Base cfgM)) p A tokens
             toks [] [] g eq_refl Hs).
  destruct (flipTokens _ p toks g) as [res g'] eqn:E. simpl.
  exists (length A), res. split; [reflexivity | apply lookup_last].
Qed.

(** ** C8: the input of Apply *)

(** C8.  For every registered modifier and every memory in which the
    slice [tokens] holds [toks], [Apply] returns without a panic; after
    the call every array that existed before it, the one of [tokens]
    among them, holds what it held, and the returned slice holds the
    tokens that [Apply] computes from [toks]. *)
Theorem registered_Apply_keeps_input `{GoLib} (m : Modifier) (mem : memory)
  (tokens : loc) (toks : list Token) (cfg : RawMessage) :
  m ∈ All builtin ->
  arrays mem !! tokens = Some toks ->
  exists (out : loc) (err : option error) (mem' : memory),
    Apply_mem m tokens cfg mem = Some ((out, err), mem') /\
    arrays mem' !! tokens = Some toks /\
    (forall l a, arrays mem !! l = Some a -> arrays mem' !! l = Some a) /\
    arrays mem' !! out = Some (fst (fst (Apply m toks cfg (seed mem)))) /\
    err = snd (fst (Apply m toks cfg (seed mem))) /\
    seed mem' = snd (Apply m toks cfg (seed mem)).
Proof.
  intros Hin Hs. destruct mem as [A g]. simpl in Hs.
  destruct (registered_cases m Hin) as [->|(fault & Hf & Hm)].
  - destruct (randomcase_Apply_mem_spec A g tokens toks cfg Hs)
      as (out & last & Hrun & Hout).
    exists out, (snd (fst (randomcase_Apply toks cfg g))),
      {| arrays := A ++ [last]; seed := snd (randomcase_Apply toks cfg g) |}.
    simpl. repeat split; auto using lookup_old.
  - exists tokens, (Some (fault cfg)), {| arrays := A; seed := g |}.
    rewrite Hm, Hf. simpl. repeat split; auto.
Qed.

Lemma registered_Apply_keeps_input_witness :
  exists (out : loc) (err : option error) (mem' : memory),
    Apply_mem (@RandomCase exampleLib) 0%nat "arguments:1.0"
      {| arrays := [[urlcache]]; seed := 0%nat |}
    = Some ((out, err), mem') /\
    arrays mem' !! 0%nat = Some [urlcache] /\
    arrays mem' !! out
    = Some [ {| Type_ := TokenTypeArgument; Value := str "-URLCACHE" |} ].
Proof.
  destruct (@registered_Apply_keeps_input exampleLib (@RandomCase exampleLib)
              {| arrays := [[urlcache]]; seed := 0%nat |} 0%nat [urlcache]
              "arguments:1.0")
    as (out & err & mem' & Hrun & Hin & _ & Hout & _).
  - rewrite All_builtin. repeat constructor.
  - reflexivity.
  - exists out, err, mem'. repeat split; assumption.
Defined.

(** ** C10: CharacterInsertion *)

Lemma registered_named_CharacterInsertion `{GoLib} (m : Modifier) :
  m ∈ All builtin -> Name m = "CharacterInsertion" -> alwaysFails m.
Proof.
  intros Hin Hname.
  destruct (registered_cases m Hin) as [->|(fault & Hf & _)];
    [discriminate|].
  intros tokens cfg g. now rewrite Hf.
Qed.

(** With any registry, a modifier that always fails and shares its name
    with no modifier that can succeed is never listed under [Applied], and
    is listed as failed by every run in which it is enabled and
    configured. *)
Lemma Obfuscate_failing_modifier (R : Registry) (m : Modifier)
  (command : gostring) (pf : option ProfileFile)
  (enabled : gmap string bool) (g : rng)
  (res : ObfuscateResult) (err : option error) (g' : rng) :
  m ∈ All R ->
  (forall m', m' ∈ All R -> Name m' = Name m -> alwaysFails m') ->
  Obfuscate R command pf enabled g = Some ((res, err), g') ->
  (Name m ∉ Applied res) /\
  (forall pf' profile,
      pf = Some pf' -> pickProfile pf' = Some profile -> err = None ->
      enabled !! Name m = Some true ->
      is_Some (Modifiers (Parameters profile) !! Name m) ->
      failed (Name m) res).
Proof.
  intros Hin Hall HO. unfold Obfuscate in HO.
  destruct pf as [pf'|].
  2:{ injection HO as <- <- <-.
      split; [apply not_elem_of_nil | discriminate]. }
  destruct (length (Profiles pf') =? 0)%nat.
  { injection HO as <- <- <-.
    split; [apply not_elem_of_nil | discriminate]. }
  destruct (pickProfile pf') as [profile|] eqn:Hpick; [|discriminate].
  cbn [mbind option_bind] in HO.
  destruct (Tokenize command profile) as [toks [terr|]].
  { injection HO as <- <- <-.
    split; [apply not_elem_of_nil | discriminate]. }
  injection HO as <- <- <-. unfold failed. cbn [Applied Skipped Errors].
  split.
  - intros Hap.
    apply applyAll_not_applied in Hap; [now apply elem_of_nil in Hap|].
    exact Hall.
  - intros pf'' profile' [= <-] Hpick' _ He Hc.
    rewrite Hpick in Hpick'. injection Hpick' as <-.
    refine (proj2 (applyAll_reports profile enabled (All R) _ m Hin He Hc) _).
    now apply Hall.
Qed.

(** CharacterInsertion never applies.  [CharacterInsertion.Apply] returns
    its input and an error, on the memory the very slice it was given, without a panic and whatever
    the pool of characters is.  The error is [ErrNotImplemented] exactly
    when the configuration decodes, the probability parses to a number
    that is neither below 0 nor above 1, and the offset parses; otherwise
    it is an error of the failed check, which [errors.Is] tells from
    [ErrNotImplemented].  So no result of [Obfuscate] lists
    CharacterInsertion under [Applied], and a result of a run in which it
    is enabled and configured lists it under [Skipped] or [Errors]. *)
Lemma charinsert_never_applies `{GoLib} (tokens : list Token)
  (cfg : RawMessage) (g : rng) :
  let e := charinsert_error cfg in
  charinsert_Apply tokens cfg g = ((tokens, Some e), g) /\
  (forall (s : loc) (mem : memory),
      Apply_mem CharacterInsertion s cfg mem = Some ((s, Some e), mem)) /\
  (e = ErrNotImplemented <->
   exists cfgM p offset,
     json_Unmarshal_charinsert cfg = (cfgM, None) /\
     strconv_ParseFloat (Probability (charinsert.Base cfgM)) = (p, None) /\
     flt p f0 = false /\ flt f1 p = false /\
     strconv_Atoi (charinsert.Offset cfgM) = (offset, None)) /\
  (errors_Is e ErrNotImplemented = true <-> e = ErrNotImplemented) /\
  (forall command pf enabled res err g',
      Obfuscate builtin command pf enabled g = Some ((res, err), g') ->
      ("CharacterInsertion" ∉ Applied res) /\
      (forall pf' profile,
          pf = Some pf' -> pickProfile pf' = Some profile -> err = None ->
          enabled !! "CharacterInsertion" = Some true ->
          is_Some (Modifiers (Parameters profile) !! "CharacterInsertion") ->
          failed "CharacterInsertion" res)).
Proof.
  intros e. split; [reflexivity|]. split; [reflexivity|].
  split; [|split].
  - unfold e, charinsert_error.
    destruct (json_Unmarshal_charinsert cfg) as [cfgM [e1|]].
    { split; [discriminate|]. intros (? & ? & ? & [=] & _). }
    destruct (strconv_ParseFloat _) as [p [e2|]] eqn:HP.
    { split; [discriminate|]. intros (? & ? & ? & [= <-] & HP' & _).
      rewrite HP in HP'. discriminate. }
    destruct (flt p f0) eqn:H0; cbn [orb].
    { split; [discriminate|].
      intros (? & ? & ? & [= <-] & HP' & H0' & _).
      rewrite HP in HP'. injection HP' as <-. congruence. }
    destruct (flt f1 p) eqn:H1; cbn [orb].
    { split; [discriminate|].
      intros (? & ? & ? & [= <-] & HP' & _ & H1' & _).
      rewrite HP in HP'. injection HP' as <-. congruence. }
    destruct (strconv_Atoi _) as [offset [e3|]] eqn:HA.
    { split; [discriminate|].
      intros (? & ? & ? & [= <-] & _ & _ & _ & HA').
      rewrite HA in HA'. discriminate. }
    split; [|reflexivity]. intros _. now exists cfgM, p, offset.
  - unfold e, charinsert_error.
    destruct (json_Unmarshal_charinsert cfg) as [cfgM [e1|]];
      [split; discriminate|].
    destruct (strconv_ParseFloat _) as [p [e2|]]; [split; discriminate|].
    destruct (flt p f0 || flt f1 p); [split; discriminate|].
    destruct (strconv_Atoi _) as [offset [e3|]]; [split; discriminate|].
    split; reflexivity.
  - intros command pf enabled res err g'.
    apply (Obfuscate_failing_modifier builtin CharacterInsertion).
    + rewrite All_builtin. repeat constructor.
    + intros m'. apply registered_named_CharacterInsertion.
Qed.

Lemma charinsert_never_applies_witness :
  exists res g',
    Obfuscate (@builtin exampleLib) (str "certutil.exe -urlcache")
      (Some (fileOf [exampleProfile])) bothEnabled 0%nat
    = Some ((res, None), g') /\
    ("CharacterInsertion" ∉ Applied res) /\
    failed "CharacterInsertion" res.
Proof.
  destruct (@charinsert_never_applies exampleLib [] EmptyString 0%nat)
    as (_ & _ & _ & _ & H).
  assert (HO : exists res g',
             Obfuscate (@builtin exampleLib) (str "certutil.exe -urlcache")
               (Some (fileOf [exampleProfile])) bothEnabled 0%nat
             = Some ((res, None), g')).
  { vm_compute. eauto. }
  destruct HO as (res & g' & HO). exists res, g'. split; [exact HO|].
  destruct (H _ _ _ _ _ _ HO) as [Hn Hf]. split; [exact Hn|].
  apply (Hf (fileOf [exampleProfile]) exampleProfile);
    [reflexivity | reflexivity | reflexivity | reflexivity | now eexists].
Defined.

(** A round whose [Apply] returns [ErrNotImplemented] adds the name to
    [Skipped] and nothing else. *)
Lemma applyModifier_skips (profile : Profile) (enabled : gmap string bool)
  (st : pipeline) (m : Modifier) (rawCfg : RawMessage)
  (modified : list Token) (g' : rng) :
  enabled !! Name m = Some true ->
  Modifiers (Parameters profile) !! Name m = Some rawCfg ->
  Apply m (tokens_ st) rawCfg (rng_ st)
  = ((modified, Some ErrNotImplemented), g') ->
  let st' := applyModifier profile enabled st m in
  tokens_ st' = tokens_ st /\
  Applied (result_ st') = Applied (result_ st) /\
  Skipped (result_ st') = Skipped (result_ st) ++ [Name m] /\
  Errors (result_ st') = Errors (result_ st).
Proof.
  intros He Hc HA. unfold applyModifier. rewrite He, Hc. simpl.
  rewrite HA. simpl. auto.
Qed.

(** The rounds of modifiers of other names leave the entry of a name in
    [Errors] as it is. *)
Lemma applyAll_Errors_other (profile : Profile) (enabled : gmap string bool)
  (mods : list Modifier) (st : pipeline) (name : string) :
  Forall (fun m => Name m <> name) mods ->
  Errors (result_ (applyAll profile enabled mods st)) !! name
  = Errors (result_ st) !! name.
Proof.
  intros HF. revert st.
  induction HF as [|m mods Hm HF IH]; intros st; simpl; [reflexivity|].
  rewrite IH. unfold applyModifier.
  destruct (negb _); [reflexivity|].
  destruct (Modifiers _ !! _) as [rawCfg|]; [|reflexivity].
  destruct (Apply m _ _ _) as [[modified [e|]] g']; simpl; [|reflexivity].
  destruct (errors_Is e ErrNotImplemented); simpl; [reflexivity|].
  now rewrite lookup_insert_ne.
Qed.

(** A run in which the first registered modifier returns
    [ErrNotImplemented] and no later modifier shares its name lists the
    modifier under [Skipped] and has no entry for it in [Errors]. *)
Lemma Obfuscate_first_skipped (R : Registry) (m : Modifier)
  (rest : list Modifier) (command : gostring) (pf : ProfileFile)
  (profile : Profile) (toks : list Token) (enabled : gmap string bool)
  (g : rng) (cfg : RawMessage) :
  All R = m :: rest ->
  Forall (fun m' => Name m' <> Name m) rest ->
  pickProfile pf = Some profile ->
  Tokenize command profile = (toks, None) ->
  enabled !! Name m = Some true ->
  Modifiers (Parameters profile) !! Name m = Some cfg ->
  Apply m toks cfg g = ((toks, Some ErrNotImplemented), g) ->
  exists res g',
    Obfuscate R command (Some pf) enabled g = Some ((res, None), g') /\
    Name m ∈ Skipped res /\
    Errors res !! Name m = None.
Proof.
  intros HAll Hrest Hpick HT He Hc HA.
  rewrite (Obfuscate_rounds R command pf profile toks enabled g Hpick HT).
  cbv zeta. rewrite HAll.
  change (applyAll profile enabled (m :: rest) (startOf toks g))
    with (applyAll profile enabled rest
            (applyModifier profile enabled (startOf toks g) m)).
  destruct (applyModifier_skips profile enabled (startOf toks g) m cfg toks g
              He Hc HA) as (_ & _ & HS & HEr).
  set (st' := applyModifier profile enabled (startOf toks g) m) in *.
  eexists _, _. split; [reflexivity|].
  cbn [resultOf Skipped Errors]. split.
  - apply (proj1 (applyAll_keeps profile enabled rest st' (Name m))).
    rewrite HS. apply elem_of_app. right. now apply list_elem_of_singleton.
  - rewrite (applyAll_Errors_other profile enabled rest st' (Name m) Hrest).
    rewrite HEr. apply lookup_empty.
Qed.

(** No other registered modifier has the name of CharacterInsertion. *)
Lemma builtin_after_CharacterInsertion `{GoLib} :
  Forall (fun m' => Name m' <> Name CharacterInsertion)
    [FilePathTransformer; OptionCharSubstitution; QuoteInsertion; RandomCase;
     Regex; ReorderArgs; Sed; Shorthands; UrlTransformer].
Proof. repeat constructor; discriminate. Qed.

(** C10.  A configuration of CharacterInsertion that decodes, whose
    probability parses to a NaN and whose offset parses: the NaN is no
    number between 0 and 1, and [CharacterInsertion.Apply] returns
    [ErrNotImplemented], not the error of the range check, so a run of
    [Obfuscate] with the modifier enabled lists it under [Skipped] and has
    no entry for it in [Errors].  Every other probability that parses and
    is below 0 or above 1 gets the error of the range check. *)
Theorem charinsert_NaN_probability `{GoLib} (tokens : list Token)
  (cfg : RawMessage) (cfgM : charinsert.Config) (offset : Z) (g : rng) :
  json_Unmarshal_charinsert cfg = (cfgM, None) ->
  strconv_ParseFloat (Probability (charinsert.Base cfgM)) = (NaN, None) ->
  strconv_Atoi (charinsert.Offset cfgM) = (offset, None) ->
  ~ betweenZeroAndOne NaN /\
  charinsert_Apply tokens cfg g = ((tokens, Some ErrNotImplemented), g) /\
  (forall command pf profile toks enabled,
      pickProfile pf = Some profile ->
      Tokenize command profile = (toks, None) ->
      enabled !! "CharacterInsertion" = Some true ->
      Modifiers (Parameters profile) !! "CharacterInsertion" = Some cfg ->
      exists res g',
        Obfuscate builtin command (Some pf) enabled g
        = Some ((res, None), g') /\
        "CharacterInsertion" ∈ Skipped res /\
        Errors res !! "CharacterInsertion" = None) /\
  (forall cfg' cfgM' p,
      json_Unmarshal_charinsert cfg' = (cfgM', None) ->
      strconv_ParseFloat (Probability (charinsert.Base cfgM')) = (p, None) ->
      flt p f0 = true \/ flt f1 p = true ->
      ~ betweenZeroAndOne p /\
      charinsert_error cfg'
      = ErrNew "probability must be between 0 and 1: %!w(<nil>)").
Proof.
  intros HU HP HO.
  assert (HE : charinsert_error cfg = ErrNotImplemented).
  { unfold charinsert_error. now rewrite HU, HP, HO. }
  split; [intros []|]. split; [unfold charinsert_Apply; now rewrite HE|].
  split.
  - intros command pf profile toks enabled Hpick HT He Hc.
    assert (HA : Apply CharacterInsertion toks cfg g
                 = ((toks, Some ErrNotImplemented), g)).
    { cbn [Apply CharacterInsertion]. unfold charinsert_Apply.
      now rewrite HE. }
    exact (Obfuscate_first_skipped builtin CharacterInsertion _ command pf
             profile toks enabled g cfg All_builtin
             builtin_after_CharacterInsertion Hpick HT He Hc HA).
  - intros cfg' cfgM' p HU' HP' Hout. split.
    + destruct p as [|negative|q]; [intros [] | intros [] |].
      intros [Hlo Hhi]. unfold flt, f0, f1, Qltb in Hout.
      destruct Hout as [Hout|Hout]; apply Z.ltb_lt in Hout;
        unfold Qle in *; simpl in *; lia.
    + unfold charinsert_error. rewrite HU', HP'.
      destruct Hout as [-> | ->]; [reflexivity|].
      now rewrite orb_true_r.
Qed.

Lemma charinsert_NaN_probability_witness :
  @charinsert_Apply nanInsertLib [urlcache] "arguments:NaN:offset 2" 0%nat
  = (([urlcache], Some ErrNotImplemented), 0%nat) /\
  exists res g',
    Obfuscate (@builtin nanInsertLib) (str "a -b") (Some (fileOf [nanProfile]))
      bothEnabled 0%nat
    = Some ((res, None), g') /\
    "CharacterInsertion" ∈ Skipped res /\
    Errors res !! "CharacterInsertion" = None.
Proof.
  pose proof (@charinsert_NaN_probability nanInsertLib [urlcache]
                "arguments:NaN:offset 2"
                {| charinsert.Base := baseConfig ["argument"] "NaN";
                   charinsert.Characters := [[8203]];
                   charinsert.Offset := "2" |} 2 0%nat
                eq_refl eq_refl eq_refl) as (_ & HA & HO & _).
  split; [exact HA|].
  apply (HO (str "a -b") (fileOf [nanProfile]) nanProfile
           [ {| Type_ := TokenTypeCommand; Value := str "a" |};
             {| Type_ := TokenTypeArgument; Value := str "-b" |} ]
           bothEnabled); reflexivity.
Defined.

(** * Further properties *)

(** ** Fields, Join and TrimSpace *)

Lemma plain_spec (f : gostring) :
  plain f = true
  <-> f <> [] /\ forallb (fun r => negb (IsSpace r)) f = true.
Proof.
  unfold plain. rewrite andb_true_iff. destruct f; simpl; split;
    intros [H1 H2]; split; auto; congruence.
Qed.

Lemma Fields_plain (s : gostring) :
  Forall (fun f => plain f = true) (Fields s).
Proof.
  eapply Forall_impl; [apply (fields_from_plain s [] eq_refl)|].
  intros f. apply plain_spec.
Qed.

(** Reading a run of runes that are not white space moves it to the field
    being read. *)
Lemma fields_from_run (f rest cur : gostring) :
  forallb (fun r => negb (IsSpace r)) f = true ->
  fields_from cur (f ++ rest) = fields_from (rev f ++ cur) rest.
Proof.
  revert cur. induction f as [|r f IH]; intros cur Hf; [reflexivity|].
  simpl in *. apply andb_prop in Hf as [Hr Hf].
  apply negb_true_iff in Hr. rewrite Hr, (IH _ Hf).
  now rewrite <- app_assoc.
Qed.

(** Splitting what was joined with one space gives the fields back. *)
Lemma Fields_Join (fs : list gostring) :
  Forall (fun f => plain f = true) fs ->
  Fields (Join fs (str " ")) = fs.
Proof.
  unfold Fields. induction fs as [|f fs IH]; intros HF; [reflexivity|].
  inversion HF as [|? ? Hf HF']; subst.
  apply plain_spec in Hf as [Hne Hf].
  destruct fs as [|f' fs].
  - simpl. rewrite <- (app_nil_r f) at 1. rewrite fields_from_run by exact Hf.
    rewrite app_nil_r. simpl.
    destruct (rev f) eqn:E; [|now rewrite <- E, rev_involutive].
    apply (f_equal (@length rune)) in E. rewrite length_rev in E.
    destruct f; [congruence | discriminate].
  - rewrite Join_cons by discriminate.
    rewrite fields_from_run by exact Hf. rewrite app_nil_r.
    change (str " " ++ Join (f' :: fs) (str " "))
      with (32 :: Join (f' :: fs) (str " ")).
    cbn [fields_from]. change (IsSpace 32) with true. cbv iota.
    destruct (rev f) eqn:E.
    + apply (f_equal (@length rune)) in E. rewrite length_rev in E.
      destruct f; [congruence | discriminate].
    + rewrite <- E, rev_involutive. f_equal. now apply IH.
Qed.

Lemma fields_from_dropSpaces (s : gostring) :
  fields_from [] (dropSpaces s) = fields_from [] s.
Proof.
  induction s as [|r s IH]; simpl; [reflexivity|].
  destruct (IsSpace r) eqn:Hr; [exact IH|]. simpl. now rewrite Hr.
Qed.

(** White space at the end adds no field. *)
Lemma fields_from_trailing (s w cur : gostring) :
  forallb IsSpace w = true ->
  fields_from cur (s ++ w) = fields_from cur s.
Proof.
  intros Hw. revert cur. induction s as [|r s IH]; intros cur; simpl.
  - revert cur. induction w as [|x w IHw]; intros cur; [reflexivity|].
    simpl in *. apply andb_prop in Hw as [Hx Hw]. rewrite Hx.
    destruct cur; rewrite (IHw Hw); reflexivity.
  - destruct (IsSpace r); [destruct cur|]; now rewrite IH.
Qed.

(** What [dropSpaces] drops from the front is white space. *)
Lemma dropSpaces_split (s : gostring) :
  exists w, forallb IsSpace w = true /\ s = w ++ dropSpaces s.
Proof.
  induction s as [|r s (w & Hw & E)]; [now exists []|].
  simpl. destruct (IsSpace r) eqn:Hr.
  - exists (r :: w). simpl. rewrite Hr, Hw. split; [reflexivity|].
    now rewrite <- E.
  - now exists [].
Qed.

Lemma Fields_TrimSpace (s : gostring) : Fields (TrimSpace s) = Fields s.
Proof.
  unfold Fields, TrimSpace.
  rewrite <- (fields_from_dropSpaces s).
  destruct (dropSpaces_split (rev (dropSpaces s))) as (w & Hw & E).
  apply (f_equal (@rev rune)) in E. rewrite rev_involutive, rev_app_distr in E.
  rewrite E at 2. symmetry. apply fields_from_trailing.
  now rewrite forallb_rev.
Qed.

(** ** Tokenize *)

(** X1.  A successful [Tokenize] returns one token for each field of
    [strings.Fields], in order: a Command token, then Argument tokens only;
    no value is empty or holds white space.  [Tokenize] fails exactly on a
    command made of white space only. *)
Theorem Tokenize_structure (command : gostring) (profile : Profile) :
  (forall tokens,
      Tokenize command profile = (tokens, None) ->
      exists first rest,
        tokens = first :: rest /\
        Type_ first = TokenTypeCommand /\
        Forall (fun t => Type_ t = TokenTypeArgument) rest /\
        Forall (fun t => plain (Value t) = true) tokens /\
        map Value tokens = Fields command) /\
  (snd (Tokenize command profile) <> None
   <-> forallb IsSpace command = true).
Proof.
  unfold Tokenize. pose proof (Fields_plain command) as HP.
  pose proof (fields_from_nil_iff command) as HN. fold (Fields command) in HN.
  destruct (Fields command) as [|p0 rest]; split.
  - discriminate.
  - simpl. split; [intros _; now apply HN | discriminate].
  - intros tokens [= <-]. do 2 eexists. split; [reflexivity|].
    split; [reflexivity|]. split; [|split].
    + apply Forall_forall. intros t Ht. apply list_elem_of_In in Ht.
      apply in_map_iff in Ht as (x & <- & _). reflexivity.
    + simpl map. change (Forall (fun t => plain (Value t) = true)
                           ({| Type_ := TokenTypeCommand; Value := p0 |}
                              :: map (fun p => {| Type_ := TokenTypeArgument;
                                                  Value := p |}) rest)).
      inversion HP as [|? ? H0 HR]; subst. constructor; [exact H0|].
      clear -HR. induction HR; simpl; constructor; auto.
    + simpl. now rewrite map_Value_arguments.
  - simpl. split; [congruence|]. intros H. apply HN in H. discriminate.
Qed.

Lemma Tokenize_structure_witness :
  exists first rest,
    [ {| Type_ := TokenTypeCommand; Value := str "cmd.exe" |};
      {| Type_ := TokenTypeArgument; Value := str "/c" |} ] = first :: rest /\
    Type_ first = TokenTypeCommand /\
    Forall (fun t => Type_ t = TokenTypeArgument) rest.
Proof.
  destruct (proj1 (Tokenize_structure (str " cmd.exe  /c") certutilProfile)
              [ {| Type_ := TokenTypeCommand; Value := str "cmd.exe" |};
                {| Type_ := TokenTypeArgument; Value := str "/c" |} ])
    as (first & rest & E & Hc & Ha & _); [reflexivity|].
  exists first, rest. auto.
Defined.

(** X2.  The rendering of the tokens of any command has no unusual white
    space, and tokenizing it again, with any profile, returns the same
    tokens: normalising the white space twice is normalising it once. *)
Theorem Tokenize_Render_Tokenize (command : gostring)
  (profile profile' : Profile) (tokens : list Token) :
  Tokenize command profile = (tokens, None) ->
  plainlySpaced (Render tokens) = true /\
  Tokenize (Render tokens) profile' = (tokens, None).
Proof.
  unfold Tokenize, Render. pose proof (Fields_plain command) as HP.
  destruct (Fields command) as [|p0 rest] eqn:HF; [discriminate|].
  intros [= <-]. simpl map. rewrite map_Value_arguments. split.
  - apply singleSpaced_Join; [discriminate|].
    eapply Forall_impl; [exact HP|]. intros f. apply plain_spec.
  - now rewrite (Fields_Join _ HP).
Qed.

Lemma Tokenize_Render_Tokenize_witness :
  let tokens := [ {| Type_ := TokenTypeCommand; Value := str "cmd.exe" |};
                  {| Type_ := TokenTypeArgument; Value := str "/c" |} ] in
  plainlySpaced (Render tokens) = true /\
  Tokenize (Render tokens) certutilProfile = (tokens, None).
Proof.
  apply (Tokenize_Render_Tokenize (str " cmd.exe  /c")
           certutilProfile certutilProfile).
  reflexivity.
Defined.

(** ** The command template *)

(** X3.  [StringValue] is the field that [Type] names, it is empty only
    when all five fields are, and an element with one field set becomes
    the token of that field. *)
Theorem CommandElement_ToToken (c : CommandElement) :
  (StringValue c = [] <->
   ce_Command c = [] /\ ce_Argument c = [] /\ ce_Value c = [] /\
   ce_Path c = [] /\ ce_URL c = []) /\
  (CommandElement_Type c = TokenTypeValue <->
   ce_Command c = [] /\ ce_Argument c = [] /\ ce_Path c = [] /\
   ce_URL c = []) /\
  (forall v,
      v <> [] ->
      (c = {| ce_Command := v; ce_Argument := []; ce_Value := [];
              ce_Path := []; ce_URL := [] |} ->
       ToToken c = {| Type_ := TokenTypeCommand; Value := v |}) /\
      (c = {| ce_Command := []; ce_Argument := v; ce_Value := [];
              ce_Path := []; ce_URL := [] |} ->
       ToToken c = {| Type_ := TokenTypeArgument; Value := v |}) /\
      (c = {| ce_Command := []; ce_Argument := []; ce_Value := v;
              ce_Path := []; ce_URL := [] |} ->
       ToToken c = {| Type_ := TokenTypeValue; Value := v |}) /\
      (c = {| ce_Command := []; ce_Argument := []; ce_Value := [];
              ce_Path := v; ce_URL := [] |} ->
       ToToken c = {| Type_ := TokenTypePath; Value := v |}) /\
      (c = {| ce_Command := []; ce_Argument := []; ce_Value := [];
              ce_Path := []; ce_URL := v |} ->
       ToToken c = {| Type_ := TokenTypeURL; Value := v |})).
Proof.
  destruct c as [a b v p u]. unfold CommandElement_Type, StringValue, ToToken.
  simpl. split; [|split].
  - destruct a, b, p, u, v; simpl; split; try tauto; try discriminate;
      intros (? & ? & ? & ? & ?); discriminate.
  - destruct a, b, p, u; simpl; split; try tauto; try discriminate;
      intros (? & ? & ? & ?); discriminate.
  - intros w Hw. destruct w as [|r w]; [congruence|].
    repeat split; intros [= -> -> -> -> ->]; reflexivity.
Qed.

Lemma CommandElement_ToToken_witness :
  ToToken {| ce_Command := []; ce_Argument := []; ce_Value := [];
             ce_Path := str "out.bin"; ce_URL := [] |}
  = {| Type_ := TokenTypePath; Value := str "out.bin" |}.
Proof.
  apply (CommandElement_ToToken
           {| ce_Command := []; ce_Argument := []; ce_Value := [];
              ce_Path := str "out.bin"; ce_URL := [] |});
    [discriminate | reflexivity].
Defined.

(** X4.  The command built from a template whose elements are fields
    (not empty, no white space) tokenizes into one token for each element,
    with the values of the elements in order, and renders back to itself;
    the types are those of [Tokenize], not those of the template. *)
Theorem buildTemplateCommand_Tokenize (p profile : Profile) :
  Command (Parameters p) <> [] ->
  Forall (fun c => plain (StringValue c) = true) (Command (Parameters p)) ->
  exists tokens,
    Tokenize (buildTemplateCommand p) profile = (tokens, None) /\
    map Value tokens = map StringValue (Command (Parameters p)) /\
    Render tokens = buildTemplateCommand p.
Proof.
  intros Hne HF. unfold buildTemplateCommand, Tokenize, Render.
  assert (HP : Forall (fun f => plain f = true)
                 (map StringValue (Command (Parameters p)))).
  { clear Hne. induction HF; simpl; constructor; auto. }
  rewrite (Fields_Join _ HP).
  destruct (Command (Parameters p)) as [|c cs]; [congruence|].
  simpl map. eexists. split; [reflexivity|].
  simpl map. rewrite map_Value_arguments. split; reflexivity.
Qed.

Lemma buildTemplateCommand_Tokenize_witness :
  let p := profileOn "windows"
             {| Command := [ {| ce_Command := str "certutil.exe";
                                ce_Argument := []; ce_Value := [];
                                ce_Path := []; ce_URL := [] |};
                             {| ce_Command := []; ce_Argument := [];
                                ce_Value := []; ce_Path := [];
                                ce_URL := str "https://example.com" |} ];
                Arguments := []; Modifiers := ∅ |} in
  exists tokens,
    Tokenize (buildTemplateCommand p) p = (tokens, None) /\
    map Value tokens = map StringValue (Command (Parameters p)) /\
    Render tokens = buildTemplateCommand p.
Proof.
  intros p. apply (buildTemplateCommand_Tokenize p p).
  - discriminate.
  - repeat constructor.
Defined.

(** ** The call of the interface *)

Lemma Tokenize_TrimSpace (s : gostring) (profile : Profile) :
  Tokenize (TrimSpace s) profile = Tokenize s profile.
Proof. unfold Tokenize. now rewrite Fields_TrimSpace. Qed.

Lemma Obfuscate_TrimSpace (R : Registry) (s : gostring)
  (pf : option ProfileFile) (enabled : gmap string bool) (g : rng) :
  Obfuscate R (TrimSpace s) pf enabled g = Obfuscate R s pf enabled g.
Proof.
  unfold Obfuscate. destruct pf as [pf'|]; [|reflexivity].
  destruct (length (Profiles pf') =? 0)%nat; [reflexivity|].
  destruct (pickProfile pf') as [profile|]; [|reflexivity].
  cbn [mbind option_bind]. now rewrite Tokenize_TrimSpace.
Qed.

Lemma nonEmpty_TrimSpace (s : gostring) :
  nonEmpty (TrimSpace s) = false <-> forallb IsSpace s = true.
Proof.
  rewrite <- fields_from_nil_iff. fold (Fields s).
  rewrite Fields_nil_TrimSpace. destruct (TrimSpace s); simpl; split;
    congruence.
Qed.

(** X5.  [applyObfuscation] always ends.  It calls the engine only with a
    file selected and a command that is not all white space, and the
    trimming changes nothing for the engine: a finished call gives what
    [Obfuscate] gives on the command as typed.  The call fails only for a
    selected file without profiles. *)
Theorem applyObfuscation_call (R : Registry) (selected : option ProfileFile)
  (input : gostring) (modifiers : list ModifierInfo) (g : rng) :
  exists out g',
    applyObfuscation R selected input modifiers g = Some (out, g') /\
    (out = NothingSelected <-> selected = None) /\
    (out = NoCommand <-> selected <> None /\ forallb IsSpace input = true) /\
    (forall e, out = CallFailed e ->
               exists pf, selected = Some pf /\ Profiles pf = []) /\
    (forall res, out = CallDone res ->
                 Obfuscate R input selected (enabledOf modifiers) g
                 = Some ((res, None), g')).
Proof.
  unfold applyObfuscation. destruct selected as [pf|].
  2:{ exists NothingSelected, g. split; [reflexivity|].
      repeat split; try discriminate; try tauto. }
  cbv zeta. destruct (nonEmpty (TrimSpace input)) eqn:HT; simpl negb; cbv iota.
  2:{ exists NoCommand, g. split; [reflexivity|].
      apply nonEmpty_TrimSpace in HT.
      repeat split; try discriminate; auto. }
  assert (HS : forallb IsSpace input <> true).
  { intros H. apply nonEmpty_TrimSpace in H. congruence. }
  rewrite Obfuscate_TrimSpace. unfold Obfuscate.
  destruct (Profiles pf) as [|p ps] eqn:HP; simpl.
  { exists (CallFailed (ErrNew "engine: no profiles available")), g.
    split; [reflexivity|]. repeat split; try discriminate.
    - now intros [].
    - intros e _. now exists pf. }
  unfold pickProfile. rewrite HP. simpl.
  unfold Tokenize. destruct (Fields input) as [|p0 rest] eqn:HF.
  { exfalso. apply HS. apply fields_from_nil_iff. exact HF. }
  eexists (CallDone _), _. split; [reflexivity|].
  repeat split; try discriminate.
  - now intros [].
  - intros res [= <-]. reflexivity.
Qed.

(** ** The registry *)

Lemma ordered_empty : ordered emptyRegistry.
Proof. intros n Hn. now apply elem_of_nil in Hn. Qed.

Lemma All_unregistered (reg : gmap string Modifier) (names : list string)
  (m : Modifier) :
  Name m ∉ names ->
  omap (fun name => <[Name m := m]> reg !! name) names
  = omap (fun name => reg !! name) names.
Proof.
  unfold omap. induction names as [|n names IH]; intros Hn; [reflexivity|].
  apply not_elem_of_cons in Hn as [Hne Hn]. simpl.
  rewrite lookup_insert_ne by congruence. now rewrite IH.
Qed.

(** A successful [Register] appends the modifier to [All] and binds its
    name to it, and keeps every other name. *)
Lemma Register_ordered (m : Modifier) (R R' : Registry) :
  ordered R -> Register m R = Some R' ->
  ordered R' /\ All R' = All R ++ [m] /\
  registry R !! Name m = None /\
  registry R' = <[Name m := m]> (registry R).
Proof.
  intros HR. unfold Register.
  destruct (registry R !! Name m) eqn:Hm; [discriminate|].
  intros [= <-]. simpl. repeat split; auto.
  - intros n Hn. simpl in *. apply elem_of_app in Hn as [Hn|Hn].
    + apply lookup_insert_is_Some'. right. now apply HR.
    + apply list_elem_of_singleton in Hn as ->.
      apply lookup_insert_is_Some'. now left.
  - unfold All. simpl. rewrite omap_app. simpl.
    rewrite lookup_insert_eq. f_equal. apply All_unregistered.
    intros Hin. apply HR in Hin. rewrite Hm in Hin. now destruct Hin.
Qed.

Lemma registerAll_ordered (ms : list Modifier) (R : Registry) :
  ordered R ->
  (is_Some (registerAll ms R)
   <-> NoDup (map Name ms)
       /\ forall m, m ∈ ms -> registry R !! Name m = None) /\
  (forall R',
      registerAll ms R = Some R' ->
      ordered R' /\ All R' = All R ++ ms /\
      (forall m, m ∈ ms -> registry R' !! Name m = Some m) /\
      (forall n, n ∉ map Name ms -> registry R' !! n = registry R !! n)).
Proof.
  revert R. induction ms as [|m ms IH]; intros R HR.
  { simpl. split.
    - split; [intros _; split; [constructor|] | eauto].
      intros m Hm. now apply elem_of_nil in Hm.
    - intros R' [= <-]. rewrite app_nil_r. repeat split; auto.
      intros m Hm. now apply elem_of_nil in Hm. }
  simpl. destruct (Register m R) as [R1|] eqn:HR1; simpl.
  2:{ split; [|discriminate]. split; [intros [? [=]]|].
      intros [_ Hnone]. exfalso. unfold Register in HR1.
      rewrite (Hnone m) in HR1 by (apply elem_of_cons; now left).
      discriminate. }
  destruct (Register_ordered m R R1 HR HR1) as (HR1o & HAll & Hm & Hreg).
  destruct (IH R1 HR1o) as [IHsome IHres]. split.
  - rewrite IHsome, NoDup_cons. rewrite Hreg. split.
    + intros [Hnd Hnone]. split; [split; [|exact Hnd]|].
      * intros Hin. apply list_elem_of_In, in_map_iff in Hin
          as (m' & Hname & Hin').
        apply list_elem_of_In in Hin'. specialize (Hnone m' Hin').
        rewrite <- Hname, lookup_insert_eq in Hnone. discriminate.
      * intros m' Hin. apply elem_of_cons in Hin as [->|Hin]; [exact Hm|].
        specialize (Hnone m' Hin).
        apply lookup_insert_None in Hnone. tauto.
    + intros [[Hnotin Hnd] Hnone]. split; [exact Hnd|].
      intros m' Hin. apply lookup_insert_None. split.
      * apply Hnone. apply elem_of_cons. now right.
      * intros E. apply Hnotin. rewrite E.
        apply list_elem_of_In, in_map, list_elem_of_In, Hin.
  - intros R' HR'. destruct (IHres R' HR') as (Ho & HA & Hin & Hout).
    assert (Hfresh : Name m ∉ map Name ms).
    { assert (Hs : is_Some (registerAll ms R1)) by eauto.
      apply IHsome in Hs as [_ Hnone]. rewrite Hreg in Hnone.
      intros Hin'. apply list_elem_of_In, in_map_iff in Hin'
        as (m' & Hname & Hin').
      apply list_elem_of_In in Hin'. specialize (Hnone m' Hin').
      rewrite <- Hname, lookup_insert_eq in Hnone. discriminate. }
    split; [exact Ho|]. split; [|split].
    + rewrite HA, HAll, <- app_assoc. reflexivity.
    + intros m' Hm'. apply elem_of_cons in Hm' as [->|Hm']; [|now apply Hin].
      rewrite (Hout _ Hfresh), Hreg. apply lookup_insert_eq.
    + intros n Hn. simpl in Hn. apply not_elem_of_cons in Hn as [Hne Hn].
      rewrite (Hout n Hn), Hreg. now apply lookup_insert_ne.
Qed.

(** X6.  Registering modifiers one after the other from the empty registry
    succeeds exactly when their names are distinct, and panics otherwise.
    After it [All] returns the modifiers in the order of registration, and
    [Get] finds each one by its name and nothing under any other name. *)
Theorem registerAll_All (ms : list Modifier) :
  (is_Some (registerAll ms emptyRegistry) <-> NoDup (map Name ms)) /\
  (forall R,
      registerAll ms emptyRegistry = Some R ->
      All R = ms /\
      (forall m, m ∈ ms -> Get R (Name m) = Some m) /\
      (forall n, n ∉ map Name ms -> Get R n = None)).
Proof.
  destruct (registerAll_ordered ms emptyRegistry ordered_empty) as [H1 H2].
  split.
  - rewrite H1. split; [tauto|]. intros H. split; [exact H|].
    intros m _. apply lookup_empty.
  - intros R HR. destruct (H2 R HR) as (_ & HA & Hin & Hout).
    split; [exact HA|]. split; [exact Hin|].
    intros n Hn. unfold Get. rewrite (Hout n Hn). apply lookup_empty.
Qed.

Lemma registerAll_All_witness :
  All (@builtin exampleLib)
  = [@CharacterInsertion exampleLib; FilePathTransformer;
     OptionCharSubstitution; QuoteInsertion; @RandomCase exampleLib; Regex;
     ReorderArgs; Sed; Shorthands; UrlTransformer] /\
  Get (@builtin exampleLib) "Sed" = Some Sed.
Proof.
  destruct (proj2 (registerAll_All
                     [@CharacterInsertion exampleLib; FilePathTransformer;
                      OptionCharSubstitution; QuoteInsertion;
                      @RandomCase exampleLib; Regex; ReorderArgs; Sed;
                      Shorthands; UrlTransformer])
              (@builtin exampleLib) eq_refl) as (HA & Hin & _).
  split; [exact HA|]. apply (Hin Sed). repeat constructor.
Defined.

(** ** The enabled map *)

(** A round reads the enabled map at the name of its modifier only. *)
Lemma applyAll_enabled_ext (profile : Profile) (e1 e2 : gmap string bool)
  (mods : list Modifier) (st : pipeline) :
  (forall m, m ∈ mods ->
             default false (e1 !! Name m) = default false (e2 !! Name m)) ->
  applyAll profile e1 mods st = applyAll profile e2 mods st.
Proof.
  revert st. induction mods as [|m mods IH]; intros st H; [reflexivity|].
  simpl. assert (E : applyModifier profile e1 st m
                     = applyModifier profile e2 st m).
  { unfold applyModifier. now rewrite (H m) by (apply elem_of_cons; now left). }
  rewrite E. apply IH. intros m' Hm'. apply H. apply elem_of_cons. now right.
Qed.

Lemma Obfuscate_enabled_ext (R : Registry) (command : gostring)
  (pf : option ProfileFile) (e1 e2 : gmap string bool) (g : rng) :
  (forall m, m ∈ All R ->
             default false (e1 !! Name m) = default false (e2 !! Name m)) ->
  Obfuscate R command pf e1 g = Obfuscate R command pf e2 g.
Proof.
  intros H. unfold Obfuscate. destruct pf as [pf'|]; [|reflexivity].
  destruct (length (Profiles pf') =? 0)%nat; [reflexivity|].
  destruct (pickProfile pf') as [profile|]; [|reflexivity].
  cbn [mbind option_bind].
  destruct (Tokenize command profile) as [toks [e|]]; [reflexivity|].
  now rewrite (applyAll_enabled_ext profile e1 e2 (All R) _ H).
Qed.

(** The map built from a list of entries holds, for each name, the flag
    of the last entry of that name. *)
Lemma enabledOf_lookup (infos : list ModifierInfo)
  (acc : gmap string bool) (n : string) :
  fold_left (fun enabled mod_ => <[info_Name mod_ := info_Enabled mod_]> enabled)
    infos acc !! n
  = fold_left (fun o mod_ => if decide (info_Name mod_ = n)
                             then Some (info_Enabled mod_) else o)
      infos (acc !! n).
Proof.
  revert acc. induction infos as [|i infos IH]; intros acc; [reflexivity|].
  simpl. rewrite IH. f_equal. rewrite lookup_insert.
  destruct (decide (info_Name i = n)); reflexivity.
Qed.

Lemma lastFlag_summary (enabled : gmap string bool) (mods : list Modifier)
  (n : string) (o : option bool) :
  fold_left (fun o mod_ => if decide (info_Name mod_ = n)
                           then Some (info_Enabled mod_) else o)
    (map (fun m => {| info_Name := Name m;
                      info_Description := Description m;
                      info_Enabled := default false (enabled !! Name m) |})
       mods) o
  = if decide (n ∈ map Name mods)
    then Some (default false (enabled !! n)) else o.
Proof.
  revert o. induction mods as [|m mods IH]; intros o; [reflexivity|].
  simpl. rewrite IH.
  destruct (decide (n ∈ map Name mods)) as [Hin|Hin].
  - rewrite decide_True by (apply elem_of_cons; now right). reflexivity.
  - destruct (decide (Name m = n)) as [->|Hne].
    + rewrite decide_True by (apply elem_of_cons; now left). reflexivity.
    + rewrite decide_False; [reflexivity|].
      intros H. apply elem_of_cons in H as [->|H]; congruence.
Qed.

(** X7.  [ModifierSummary] lists the registered modifiers in the order of
    [All], and the map that [applyObfuscation] builds back from it holds
    for each registered name the truth of the original map and nothing for
    any other name; [Obfuscate] does the same with either map. *)
Theorem ModifierSummary_enabledOf (R : Registry) (enabled : gmap string bool) :
  map info_Name (ModifierSummary R enabled) = map Name (All R) /\
  (forall n,
      enabledOf (ModifierSummary R enabled) !! n
      = if decide (n ∈ map Name (All R))
        then Some (default false (enabled !! n)) else None) /\
  (forall command pf g,
      Obfuscate R command pf (enabledOf (ModifierSummary R enabled)) g
      = Obfuscate R command pf enabled g).
Proof.
  assert (HL : forall n,
             enabledOf (ModifierSummary R enabled) !! n
             = if decide (n ∈ map Name (All R))
               then Some (default false (enabled !! n)) else None).
  { intros n. unfold enabledOf, ModifierSummary.
    rewrite enabledOf_lookup, lookup_empty. apply lastFlag_summary. }
  split; [|split; [exact HL|]].
  - unfold ModifierSummary. rewrite map_map. reflexivity.
  - intros command pf g. apply Obfuscate_enabled_ext. intros m Hm.
    rewrite HL, decide_True; [reflexivity|].
    apply list_elem_of_In, in_map, list_elem_of_In, Hm.
Qed.

Lemma lastFlag_nomatch (infos : list ModifierInfo) (n : string)
  (o : option bool) :
  n ∉ map info_Name infos ->
  fold_left (fun o mod_ => if decide (info_Name mod_ = n)
                           then Some (info_Enabled mod_) else o) infos o = o.
Proof.
  revert o. induction infos as [|i infos IH]; intros o Hn; [reflexivity|].
  simpl in *. apply not_elem_of_cons in Hn as [Hne Hn].
  rewrite decide_False by congruence. now apply IH.
Qed.

Lemma toggleModifier_in_range (modifiers : list ModifierInfo) (modCursor : Z)
  (info : ModifierInfo) :
  0 <= modCursor -> modifiers !! Z.to_nat modCursor = Some info ->
  toggleModifier modifiers modCursor
  = <[Z.to_nat modCursor :=
        {| info_Name := info_Name info;
           info_Description := info_Description info;
           info_Enabled := negb (info_Enabled info) |}]> modifiers.
Proof.
  intros H0 Hi. unfold toggleModifier.
  pose proof (lookup_lt_Some _ _ _ Hi) as Hlt.
  replace ((0 <=? modCursor) && (modCursor <? Z.of_nat (length modifiers)))
    with true by (symmetry; apply andb_true_iff; split;
                  [apply Z.leb_le | apply Z.ltb_lt]; lia).
  now rewrite Hi.
Qed.

(** X8.  [toggleModifier] keeps the entries and their names, does nothing
    for a cursor out of range, and undoes itself when repeated.  With the
    cursor on an entry of a list of distinct names, the map built for the
    engine changes at the name of that entry only, where it holds the
    negated flag. *)
Theorem toggleModifier_flips (modifiers : list ModifierInfo) (modCursor : Z) :
  map info_Name (toggleModifier modifiers modCursor)
  = map info_Name modifiers /\
  toggleModifier (toggleModifier modifiers modCursor) modCursor = modifiers /\
  (~ (0 <= modCursor < Z.of_nat (length modifiers)) ->
   toggleModifier modifiers modCursor = modifiers) /\
  (forall info,
      0 <= modCursor ->
      modifiers !! Z.to_nat modCursor = Some info ->
      NoDup (map info_Name modifiers) ->
      forall n,
        enabledOf (toggleModifier modifiers modCursor) !! n
        = if decide (n = info_Name info)
          then Some (negb (info_Enabled info))
          else enabledOf modifiers !! n).
Proof.
  assert (Hout : ~ (0 <= modCursor < Z.of_nat (length modifiers)) ->
                 toggleModifier modifiers modCursor = modifiers).
  { intros H. unfold toggleModifier.
    destruct (Z.leb_spec 0 modCursor), (Z.ltb_spec modCursor
                                          (Z.of_nat (length modifiers)));
      simpl; try reflexivity. lia. }
  destruct (decide (0 <= modCursor < Z.of_nat (length modifiers)))
    as [Hin|Hnot].
  2:{ rewrite !(Hout Hnot). repeat split; auto.
      intros info H0 Hi. apply lookup_lt_Some in Hi. lia. }
  destruct (lookup_lt_is_Some_2 modifiers (Z.to_nat modCursor))
    as [info Hi]; [lia|].
  pose proof (lookup_lt_Some _ _ _ Hi) as Hlt.
  pose proof (take_drop_middle _ _ _ Hi) as Hsplit.
  pose proof (toggleModifier_in_range _ _ _ (proj1 Hin) Hi) as Ht.
  set (info' := {| info_Name := info_Name info;
                   info_Description := info_Description info;
                   info_Enabled := negb (info_Enabled info) |}) in *.
  split; [|split; [|split; [exact Hout|]]].
  - rewrite Ht, insert_take_drop by exact Hlt.
    apply (f_equal (map info_Name)) in Hsplit.
    rewrite map_app in *. exact Hsplit.
  - assert (Hi' : toggleModifier modifiers modCursor !! Z.to_nat modCursor
                  = Some info')
      by (rewrite Ht; now apply list_lookup_insert_eq).
    rewrite (toggleModifier_in_range _ _ _ (proj1 Hin) Hi'), Ht.
    rewrite list_insert_insert_eq. apply list_insert_id.
    rewrite Hi. f_equal. destruct info as [nm d e]. simpl.
    now rewrite negb_involutive.
  - intros info0 _ Hi0 Hnd n. rewrite Hi in Hi0. injection Hi0 as <-.
    rewrite Ht, insert_take_drop by exact Hlt.
    unfold enabledOf. rewrite !enabledOf_lookup, lookup_empty.
    remember (take (Z.to_nat modCursor) modifiers) as pre eqn:Epre.
    remember (drop (S (Z.to_nat modCursor)) modifiers) as post eqn:Epost.
    clear Epre Epost Ht Hi. rewrite <- Hsplit in Hnd |- *.
    rewrite map_app in Hnd. simpl in Hnd.
    apply NoDup_app in Hnd as (_ & Hpre & Hpost).
    apply NoDup_cons in Hpost as [Hpost _].
    rewrite !fold_left_app. simpl.
    destruct (decide (n = info_Name info)) as [->|Hne].
    + rewrite decide_True by reflexivity. now apply lastFlag_nomatch.
    + rewrite !decide_False by congruence. reflexivity.
Qed.

Lemma toggleModifier_flips_witness :
  enabledOf (toggleModifier
               (ModifierSummary (@builtin exampleLib) bothEnabled) 4)
    !! "RandomCase" = Some false.
Proof.
  destruct (toggleModifier_flips
              (ModifierSummary (@builtin exampleLib) bothEnabled) 4)
    as (_ & _ & _ & H).
  rewrite (H {| info_Name := "RandomCase";
                info_Description
                  := "Randomly flip UPPER/lower case per character";
                info_Enabled := true |}); [reflexivity | lia | reflexivity |].
  apply (bool_decide_unpack _). vm_compute. exact I.
Defined.

(** ** The report of a run *)

(** A successful [Obfuscate] is the loop over [All] from the tokens of the
    picked profile. *)
Lemma Obfuscate_success (R : Registry) (command : gostring)
  (pf : option ProfileFile) (enabled : gmap string bool) (g : rng)
  (res : ObfuscateResult) (g' : rng) :
  Obfuscate R command pf enabled g = Some ((res, None), g') ->
  exists pf' profile tokens,
    pf = Some pf' /\ pickProfile pf' = Some profile /\
    Tokenize command profile = (tokens, None) /\
    let st := applyAll profile enabled (All R)
                {| tokens_ := tokens; result_ := zeroResult; rng_ := g |} in
    Output res = Render (tokens_ st) /\
    Applied res = Applied (result_ st) /\
    Skipped res = Skipped (result_ st) /\
    Errors res = Errors (result_ st) /\
    g' = rng_ st.
Proof.
  unfold Obfuscate. destruct pf as [pf'|]; [|discriminate].
  destruct (length (Profiles pf') =? 0)%nat; [discriminate|].
  destruct (pickProfile pf') as [profile|] eqn:Hpick; [|discriminate].
  cbn [mbind option_bind].
  destruct (Tokenize command profile) as [toks [terr|]] eqn:HT;
    [discriminate|].
  intros [= <- <-]. exists pf', profile, toks. repeat split; auto.
Qed.

Lemma DefaultEnabled_cases (pf : option ProfileFile) :
  exists enabled,
    DefaultEnabled pf = Some enabled /\
    (noProfile pf -> enabled = ∅) /\
    (forall pf' profile,
        pf = Some pf' -> pickProfile pf' = Some profile ->
        enabled = (fun _ : RawMessage => true)
                    <$> Modifiers (Parameters profile)).
Proof.
  unfold DefaultEnabled. destruct pf as [pf'|].
  2:{ exists ∅. repeat split; auto; discriminate. }
  unfold pickProfile. destruct (Profiles pf') as [|p ps] eqn:HP; simpl.
  { exists ∅. split; [reflexivity|]. split; [reflexivity|].
    intros pf'' profile [= <-] Hp. rewrite HP in Hp. discriminate. }
  eexists. split; [reflexivity|].
  split; [intros H; rewrite HP in H; discriminate|].
  intros pf'' profile [= <-]. rewrite HP. now intros [= <-].
Qed.

(** X9.  [DefaultEnabled] never panics.  It returns the empty map without
    a profile, and otherwise the map that holds true at the names that the
    first profile configures, registered or not, and nothing elsewhere.
    With this map the options panel marks a modifier exactly when the
    profile configures it, and a successful run reports every registered
    modifier that the profile configures. *)
Theorem DefaultEnabled_configured (pf : option ProfileFile) :
  exists enabled,
    DefaultEnabled pf = Some enabled /\
    (noProfile pf -> enabled = ∅) /\
    (forall pf' profile,
        pf = Some pf' -> pickProfile pf' = Some profile ->
        (forall n, enabled !! n
                   = match ConfigFor profile n with
                     | Some _ => Some true
                     | None => None
                     end) /\
        (forall R info,
            info ∈ ModifierSummary R enabled ->
            info_Enabled info = true
            <-> is_Some (ConfigFor profile (info_Name info))) /\
        (forall R command g res g' m,
            Obfuscate R command pf enabled g = Some ((res, None), g') ->
            m ∈ All R -> is_Some (ConfigFor profile (Name m)) ->
            reported (Name m) res)).
Proof.
  destruct (DefaultEnabled_cases pf) as (enabled & HD & Hno & Hsome).
  exists enabled. split; [exact HD|]. split; [exact Hno|].
  intros pf' profile Hpf Hpick.
  specialize (Hsome pf' profile Hpf Hpick).
  assert (HL : forall n,
             enabled !! n = match ConfigFor profile n with
                            | Some _ => Some true
                            | None => None
                            end).
  { intros n. rewrite Hsome, lookup_fmap. unfold ConfigFor.
    now destruct (Modifiers (Parameters profile) !! n). }
  split; [exact HL|]. split.
  - intros R info Hin. unfold ModifierSummary in Hin.
    apply list_elem_of_In, in_map_iff in Hin as (m & <- & _). simpl.
    rewrite HL. destruct (ConfigFor profile (Name m)); simpl; split;
      try reflexivity; try discriminate; eauto.
    now intros [].
  - intros R command g res g' m HO Hin Hc.
    apply Obfuscate_success in HO
      as (pf2 & profile2 & toks & Hpf2 & Hpick2 & _ & _ & HA & HS & HE & _).
    rewrite Hpf in Hpf2. injection Hpf2 as <-.
    rewrite Hpick in Hpick2. injection Hpick2 as <-.
    assert (He : enabled !! Name m = Some true).
    { rewrite HL. now destruct Hc as [c ->]. }
    pose proof (proj1 (applyAll_reports profile enabled (All R)
                         {| tokens_ := toks; result_ := zeroResult;
                            rng_ := g |} m Hin He Hc)) as Hrep.
    unfold reported, failed in *. rewrite HA, HS, HE. exact Hrep.
Qed.

Lemma filter_names_sublist (f : Modifier -> bool) (mods : list Modifier) :
  sublist (map Name (List.filter f mods)) (map Name mods).
Proof.
  induction mods as [|m mods IH]; simpl; [constructor|].
  destruct (f m); simpl; now constructor.
Qed.

(** The loop adds to the three parts of the report, all together, the
    name of each modifier that runs, once for each round, and adds to
    [Applied] and to [Skipped] in the order of the rounds. *)
Lemma applyAll_accounting (profile : Profile) (enabled : gmap string bool)
  (mods : list Modifier) (st : pipeline) :
  let st' := applyAll profile enabled mods st in
  exists la ls le,
    Applied (result_ st') = Applied (result_ st) ++ la /\
    Skipped (result_ st') = Skipped (result_ st) ++ ls /\
    dom (Errors (result_ st'))
    = dom (Errors (result_ st)) ∪ list_to_set le /\
    la ++ ls ++ le ≡ₚ map Name (List.filter (runs profile enabled) mods) /\
    sublist la (map Name mods) /\ sublist ls (map Name mods).
Proof.
  revert st. induction mods as [|m mods IH]; intros st; simpl.
  { exists [], [], []. rewrite !app_nil_r. repeat split; auto; try constructor.
    simpl. now rewrite (right_id_L ∅ (∪)). }
  destruct (IH (applyModifier profile enabled st m))
    as (la & ls & le & HA & HS & HE & HP & Hla & Hls).
  rewrite HA, HS, HE. clear HA HS HE. unfold applyModifier, runs.
  destruct (default false (enabled !! Name m)); simpl.
  2:{ exists la, ls, le. repeat split; auto; now constructor. }
  destruct (Modifiers (Parameters profile) !! Name m) as [rawCfg|] eqn:Hc.
  2:{ rewrite bool_decide_eq_false_2 by (intros [? [=]]).
      exists la, ls, le. repeat split; auto; now constructor. }
  rewrite bool_decide_eq_true_2 by eauto.
  destruct (Apply m (tokens_ st) rawCfg (rng_ st)) as [[modified [e|]] g'];
    simpl.
  - destruct (errors_Is e ErrNotImplemented); simpl.
    + exists la, (Name m :: ls), le. rewrite <- app_assoc.
      repeat split; auto; try now constructor.
      rewrite <- HP. simpl. now rewrite <- Permutation_middle.
    + exists la, ls, (Name m :: le).
      repeat split; auto; try now constructor.
      * rewrite dom_insert_L. simpl.
        rewrite (assoc_L (∪)), (comm_L (∪) _ {[Name m]}). reflexivity.
      * rewrite <- HP. rewrite app_assoc, <- Permutation_middle.
        now rewrite <- app_assoc.
  - exists (Name m :: la), ls, le. rewrite <- app_assoc.
    repeat split; auto; try now constructor.
    all: simpl; now rewrite HP.
Qed.

(** X10.  After a successful run on a registry of distinct names, the
    names under [Applied], under [Skipped] and the keys of [Errors] are,
    all together and each one once, the names of the registered modifiers
    that are enabled and configured; [Applied] and [Skipped] list theirs
    in the order of registration. *)
Theorem Obfuscate_accounting (R : Registry) (command : gostring)
  (pf' : ProfileFile) (profile : Profile) (enabled : gmap string bool)
  (g : rng) (res : ObfuscateResult) (g' : rng) :
  NoDup (map Name (All R)) ->
  pickProfile pf' = Some profile ->
  Obfuscate R command (Some pf') enabled g = Some ((res, None), g') ->
  Applied res ++ Skipped res ++ elements (dom (Errors res))
    ≡ₚ map Name (List.filter (runs profile enabled) (All R)) /\
  sublist (Applied res) (map Name (All R)) /\
  sublist (Skipped res) (map Name (All R)).
Proof.
  intros Hnd Hpick HO.
  apply Obfuscate_success in HO
    as (pf2 & profile2 & toks & [= <-] & Hpick2 & _ & _ & HA & HS & HE & _).
  rewrite Hpick in Hpick2. injection Hpick2 as <-.
  destruct (applyAll_accounting profile enabled (All R)
              {| tokens_ := toks; result_ := zeroResult; rng_ := g |})
    as (la & ls & le & HA' & HS' & HE' & HP & Hla & Hls).
  simpl in HA', HS', HE'. rewrite HA, HS, HE, HA', HS', HE'.
  rewrite dom_empty_L, (left_id_L ∅ (∪)).
  split; [|split; assumption].
  assert (Hnd' : NoDup (la ++ ls ++ le)).
  { rewrite HP. exact (sublist_NoDup _ _ Hnd (filter_names_sublist _ _)). }
  apply NoDup_app in Hnd' as (_ & _ & Hnd').
  apply NoDup_app in Hnd' as (_ & _ & Hnd').
  rewrite (elements_list_to_set le Hnd'). exact HP.
Qed.

Lemma Obfuscate_accounting_witness :
  exists res g',
    Obfuscate (@builtin exampleLib) (str "certutil.exe -urlcache")
      (Some (fileOf [exampleProfile])) bothEnabled 0%nat
    = Some ((res, None), g') /\
    Applied res ++ Skipped res ++ elements (dom (Errors res))
      ≡ₚ ["CharacterInsertion"; "RandomCase"].
Proof.
  assert (HO : exists res g',
             Obfuscate (@builtin exampleLib) (str "certutil.exe -urlcache")
               (Some (fileOf [exampleProfile])) bothEnabled 0%nat
             = Some ((res, None), g')).
  { vm_compute. eauto. }
  destruct HO as (res & g' & HO). exists res, g'. split; [exact HO|].
  assert (Hnd : NoDup (map Name (All (@builtin exampleLib))))
    by (apply (bool_decide_unpack _); vm_compute; exact I).
  destruct (Obfuscate_accounting (@builtin exampleLib)
              (str "certutil.exe -urlcache") (fileOf [exampleProfile])
              exampleProfile bothEnabled 0%nat res g' Hnd eq_refl HO)
    as [HP _].
  exact HP.
Defined.

(** ** RandomCase, rune by rune *)

Lemma flipRunes_spec `{GoLib} (probability : float64) (runes : list rune)
  (g : rng) :
  snd (flipRunes probability runes g) = (g + length runes)%nat /\
  Forall2 flippedOrKept runes (fst (flipRunes probability runes g)).
Proof.
  revert g. induction runes as [|r runes IH]; intros g; simpl.
  - split; [lia | constructor].
  - destruct (IH (S g)) as [Hg HF].
    destruct (flipRunes probability runes (S g)) as [rest g2]. simpl in *.
    split; [lia|]. constructor; [|exact HF].
    unfold flippedOrKept.
    match goal with |- context [if ?c then _ else _] => destruct c end; auto.
Qed.

Lemma flippedOrKept_refl `{GoLib} (runes : list rune) :
  Forall2 flippedOrKept runes runes.
Proof. induction runes; constructor; auto. now left. Qed.

Lemma flipTokens_spec `{GoLib} (appliesTo : list string)
  (probability : float64) (tokens : list Token) (g : rng) :
  snd (flipTokens appliesTo probability tokens g)
  = (g + eligibleRunes appliesTo tokens)%nat /\
  Forall2 (caseVariant appliesTo) tokens
    (fst (flipTokens appliesTo probability tokens g)).
Proof.
  unfold eligibleRunes.
  revert g. induction tokens as [|t tokens IH]; intros g; simpl.
  - split; [lia | constructor].
  - destruct (Contains appliesTo (Type_ t)) eqn:Ht; simpl.
    + destruct (flipRunes_spec probability (Value t) g) as [Hg HF].
      destruct (flipRunes probability (Value t) g) as [runes g1].
      destruct (IH g1) as [Hg' HF'].
      destruct (flipTokens appliesTo probability tokens g1) as [rest g2].
      simpl in *. split; [lia|]. constructor; [|exact HF'].
      unfold caseVariant. simpl. rewrite Ht. repeat split; auto.
      discriminate.
    + destruct (IH g) as [Hg' HF'].
      destruct (flipTokens appliesTo probability tokens g) as [rest g2].
      simpl in *. split; [lia|]. constructor; [|exact HF'].
      unfold caseVariant. repeat split; auto. apply flippedOrKept_refl.
Qed.

(** X11.  When [RandomCase.Apply] fails it returns its input and draws no
    random number.  When it succeeds, every token of the output has the
    type of the token at its place and a value of as many runes, each rune
    being the rune of the input or its case flip; a token whose type is
    not listed is the token of the input; and the call has drawn one
    number for each rune of each eligible token and no other. *)
Theorem randomcase_Apply_runes `{GoLib} (tokens : list Token)
  (cfg : RawMessage) (g : rng) (out : list Token) (err : option error)
  (g' : rng) :
  randomcase_Apply tokens cfg g = ((out, err), g') ->
  (err <> None -> out = tokens /\ g' = g) /\
  (err = None ->
   let appliesTo :=
     AppliesTo (randomcase.Base (fst (json_Unmarshal_randomcase cfg))) in
   Forall2 (caseVariant appliesTo) tokens out /\
   g' = (g + eligibleRunes appliesTo tokens)%nat).
Proof.
  unfold randomcase_Apply.
  destruct (json_Unmarshal_randomcase cfg) as [cfgM [e|]];
    [intros [= <- <- <-]; split; [auto | discriminate]|].
  destruct (strconv_ParseFloat _) as [p [e|]];
    [intros [= <- <- <-]; split; [auto | discriminate]|].
  destruct (flt p f0 || flt f1 p);
    [intros [= <- <- <-]; split; [auto | discriminate]|].
  destruct (flipTokens_spec (AppliesTo (randomcase.Base cfgM)) p tokens g)
    as [Hg HF].
  destruct (flipTokens _ p tokens g) as [res g1]. simpl in *.
  intros [= <- <- <-]. split; [congruence|]. auto.
Qed.

Lemma randomcase_Apply_runes_witness :
  Forall2 (@caseVariant exampleLib ["argument"])
    [urlcache] [ {| Type_ := TokenTypeArgument; Value := str "-URLCACHE" |} ].
Proof.
  destruct (@randomcase_Apply_runes exampleLib [urlcache] "arguments:1.0"
              0%nat
              [ {| Type_ := TokenTypeArgument; Value := str "-URLCACHE" |} ]
              None 9%nat eq_refl) as [_ H].
  exact (proj1 (H eq_refl)).
Defined.

(** X12.  A probability that parses to a NaN passes the range check of
    [RandomCase.Apply], since a NaN is neither below 0 nor above 1, and no
    draw is below a NaN: the call succeeds, returns the tokens as they
    were and draws one number for each rune of each eligible token. *)
Theorem randomcase_Apply_NaN `{GoLib} (tokens : list Token)
  (cfg : RawMessage) (cfgM : randomcase.Config) (g : rng) :
  json_Unmarshal_randomcase cfg = (cfgM, None) ->
  strconv_ParseFloat (Probability (randomcase.Base cfgM)) = (NaN, None) ->
  randomcase_Apply tokens cfg g
  = ((tokens, None),
     (g + eligibleRunes (AppliesTo (randomcase.Base cfgM)) tokens)%nat).
Proof.
  intros HU HP. unfold randomcase_Apply. rewrite HU, HP. simpl.
  assert (HR : forall runes g0,
             flipRunes NaN runes g0 = (runes, (g0 + length runes)%nat)).
  { induction runes as [|r runes IH]; intros g0; simpl.
    - f_equal. lia.
    - rewrite IH. f_equal. lia. }
  assert (HT : forall toks g0,
             flipTokens (AppliesTo (randomcase.Base cfgM)) NaN toks g0
             = (toks, (g0 + eligibleRunes (AppliesTo (randomcase.Base cfgM))
                              toks)%nat)).
  { unfold eligibleRunes.
    induction toks as [|t toks IH]; intros g0; simpl.
    - f_equal. lia.
    - destruct (Contains _ (Type_ t)); simpl.
      + rewrite HR, IH. destruct t. simpl. f_equal. lia.
      + rewrite IH. reflexivity. }
  now rewrite HT.
Qed.

Lemma randomcase_Apply_NaN_witness :
  @randomcase_Apply nanLib [urlcache] "arguments:NaN" 0%nat
  = (([urlcache], None), 9%nat).
Proof.
  apply (@randomcase_Apply_NaN nanLib [urlcache] "arguments:NaN"
           {| randomcase.Base := baseConfig ["argument"] "NaN" |} 0%nat);
    reflexivity.
Defined.

Lemma flipCase_flipCase_ascii `{GoLib} (r : rune) :
  0 <= r <= 127 -> flipCase (flipCase r) = r.
Proof.
  intros Hr. rewrite (flipCase_ascii r Hr).
  unfold asciiUpper, asciiLower.
  destruct (Z.leb_spec 65 r), (Z.leb_spec r 90); simpl;
    try (rewrite flipCase_ascii by lia; unfold asciiUpper, asciiLower;
         repeat match goal with
                | |- context [?a <=? ?b] =>
                    destruct (Z.leb_spec a b); simpl; try lia
                end).
  all: destruct (Z.leb_spec 97 r), (Z.leb_spec r 122); simpl;
    rewrite flipCase_ascii by lia; unfold asciiUpper, asciiLower;
    repeat match goal with
           | |- context [?a <=? ?b] =>
               destruct (Z.leb_spec a b); simpl; try lia
           end.
Qed.

(** X13.  On tokens of ASCII runes, [RandomCase.Apply] with a probability
    that parses to 1 undoes itself: applied to its own output, from any
    state of the generator, it returns the tokens it started from. *)
Theorem randomcase_Apply_twice `{GoLib} (tokens : list Token)
  (cfg : RawMessage) (cfgM : randomcase.Config) (g g2 : rng) :
  Float64_in_range ->
  json_Unmarshal_randomcase cfg = (cfgM, None) ->
  strconv_ParseFloat (Probability (randomcase.Base cfgM)) = (f1, None) ->
  Forall (fun t => Forall (fun r => 0 <= r <= 127) (Value t)) tokens ->
  fst (randomcase_Apply (fst (fst (randomcase_Apply tokens cfg g))) cfg g2)
  = (tokens, None).
Proof.
  intros Hd HU HP Hascii.
  assert (A : forall toks g0,
             fst (randomcase_Apply toks cfg g0)
             = (map (fun t =>
                       if Contains (AppliesTo (randomcase.Base cfgM)) (Type_ t)
                       then flipAll t else t) toks, None)).
  { intros toks g0. unfold randomcase_Apply. rewrite HU, HP. simpl.
    pose proof (flipTokens_always Hd (AppliesTo (randomcase.Base cfgM))
                  toks g0) as E.
    destruct (flipTokens _ _ toks g0). simpl in *. now subst. }
  rewrite !A. simpl. f_equal. rewrite map_map.
  induction Hascii as [|t toks Ht Htoks IH]; [reflexivity|].
  simpl. rewrite IH. f_equal.
  destruct (Contains _ (Type_ t)) eqn:Hc; [|now rewrite Hc].
  simpl. rewrite Hc. destruct t as [ty v]. unfold flipAll. simpl in *.
  f_equal. rewrite map_map. clear -Ht.
  induction Ht as [|r v Hr Hv IH]; [reflexivity|].
  simpl. now rewrite IH, flipCase_flipCase_ascii.
Qed.

Lemma randomcase_Apply_twice_witness :
  fst (@randomcase_Apply exampleLib
         (fst (fst (@randomcase_Apply exampleLib [urlcache] "arguments:1.0"
                      0%nat)))
         "arguments:1.0" 9%nat)
  = ([urlcache], None).
Proof.
  apply (@randomcase_Apply_twice exampleLib [urlcache] "arguments:1.0"
           {| randomcase.Base := baseConfig ["argument"] "1.0" |}).
  - intros n. simpl. split; [discriminate | reflexivity].
  - reflexivity.
  - reflexivity.
  - repeat constructor; simpl; lia.
Defined.

(** ** The shape of the tokens along the pipeline *)

Lemma caseVariant_shape `{GoLib} (appliesTo : list string)
  (tokens out : list Token) :
  Forall2 (caseVariant appliesTo) tokens out -> shape out = shape tokens.
Proof.
  unfold shape. induction 1 as [|t o tokens out (Hty & Hv & _) _ IH];
    [reflexivity|].
  simpl. rewrite IH, Hty. now rewrite (Forall2_length _ _ _ Hv).
Qed.

Lemma registered_Apply_shape `{GoLib} (m : Modifier) (tokens : list Token)
  (cfg : RawMessage) (g : rng) (out : list Token) (g' : rng) :
  m ∈ All builtin ->
  Apply m tokens cfg g = ((out, None), g') -> shape out = shape tokens.
Proof.
  intros Hin HA.
  destruct (registered_cases m Hin) as [->|(fault & Hf & _)].
  - simpl in HA. unfold randomcase_Apply in HA.
    destruct (json_Unmarshal_randomcase cfg) as [cfgM [e|]]; [discriminate|].
    destruct (strconv_ParseFloat _) as [p [e|]]; [discriminate|].
    destruct (flt p f0 || flt f1 p); [discriminate|].
    pose proof (proj2 (flipTokens_spec (AppliesTo (randomcase.Base cfgM)) p
                         tokens g)) as HF.
    destruct (flipTokens _ p tokens g). simpl in HF.
    injection HA as <- <-. now apply caseVariant_shape in HF.
  - rewrite Hf in HA. discriminate.
Qed.

Lemma applyAll_shape (profile : Profile) (enabled : gmap string bool)
  (mods : list Modifier) (st : pipeline) :
  (forall m tokens cfg g out g',
      m ∈ mods -> Apply m tokens cfg g = ((out, None), g') ->
      shape out = shape tokens) ->
  shape (tokens_ (applyAll profile enabled mods st)) = shape (tokens_ st).
Proof.
  revert st. induction mods as [|m mods IH]; intros st H; [reflexivity|].
  simpl. rewrite IH.
  2:{ intros m' ? ? ? ? ? Hm'. apply H. apply elem_of_cons. now right. }
  unfold applyModifier. destruct (negb _); [reflexivity|].
  destruct (Modifiers _ !! _) as [rawCfg|]; [|reflexivity].
  destruct (Apply m _ _ _) as [[modified [e|]] g'] eqn:HA; simpl.
  - now destruct (errors_Is e ErrNotImplemented).
  - apply (H m _ _ _ _ _ (ltac:(apply elem_of_cons; now left)) HA).
Qed.

Lemma Join_length (xs ys : list gostring) (sep : gostring) :
  map (@length rune) xs = map (@length rune) ys ->
  length (Join xs sep) = length (Join ys sep).
Proof.
  revert ys. induction xs as [|x xs IH]; intros [|y ys] E; try discriminate;
    [reflexivity|].
  injection E as Ex E. specialize (IH ys E).
  destruct xs as [|x' xs], ys as [|y' ys]; try discriminate; [exact Ex|].
  rewrite (Join_cons x), (Join_cons y) by discriminate.
  rewrite !length_app. lia.
Qed.

Lemma Render_length (a b : list Token) :
  shape a = shape b -> length (Render a) = length (Render b).
Proof.
  intros E. unfold Render. apply Join_length.
  apply (f_equal (map snd)) in E. unfold shape in E.
  rewrite !map_map in E. simpl in E. now rewrite !map_map.
Qed.

Lemma Obfuscate_shape (R : Registry) (command : gostring)
  (pf : option ProfileFile) (enabled : gmap string bool) (g : rng)
  (res : ObfuscateResult) (g' : rng) :
  (forall m tokens cfg g out g',
      m ∈ All R -> Apply m tokens cfg g = ((out, None), g') ->
      shape out = shape tokens) ->
  Obfuscate R command pf enabled g = Some ((res, None), g') ->
  length (Output res) = length (Join (Fields command) (str " ")).
Proof.
  intros H HO.
  apply Obfuscate_success in HO
    as (pf' & profile & toks & _ & _ & HT & HOut & _).
  rewrite HOut.
  rewrite (Render_length _ toks) by (now apply applyAll_shape).
  unfold Tokenize in HT. destruct (Fields command) as [|p0 rest];
    [discriminate|].
  injection HT as <-. unfold Render. simpl map.
  now rewrite map_Value_arguments.
Qed.

Lemma Obfuscate_applied (R : Registry) (command : gostring)
  (pf : option ProfileFile) (enabled : gmap string bool) (g : rng)
  (res : ObfuscateResult) (g' : rng) (n : string) :
  (forall m, m ∈ All R -> Name m = n -> alwaysFails m) ->
  Obfuscate R command pf enabled g = Some ((res, None), g') ->
  n ∉ Applied res.
Proof.
  intros H HO Hin.
  apply Obfuscate_success in HO
    as (pf' & profile & toks & _ & _ & _ & _ & HA & _).
  rewrite HA in Hin. apply applyAll_not_applied in Hin; [|exact H].
  now apply elem_of_nil in Hin.
Qed.

(** X14.  With the modifiers of this build the loop of [Obfuscate] keeps
    the number of tokens, the type of each and the number of runes of each
    value.  So the output of a successful run has as many runes as the
    command with its white space normalised, and only RandomCase is ever
    listed under [Applied]. *)
Theorem builtin_pipeline_shape `{GoLib} :
  (forall profile enabled st,
      shape (tokens_ (applyAll profile enabled (All builtin) st))
      = shape (tokens_ st)) /\
  (forall command pf enabled g res g',
      Obfuscate builtin command pf enabled g = Some ((res, None), g') ->
      length (Output res) = length (Join (Fields command) (str " ")) /\
      (forall n, n ∈ Applied res -> n = "RandomCase")).
Proof.
  assert (HS : forall m tokens cfg g out g',
             m ∈ All builtin -> Apply m tokens cfg g = ((out, None), g') ->
             shape out = shape tokens).
  { intros m tokens cfg g out g' Hin. now apply registered_Apply_shape. }
  split.
  - intros profile enabled st. apply applyAll_shape. exact HS.
  - intros command pf enabled g res g' HO. split.
    + exact (Obfuscate_shape builtin command pf enabled g res g' HS HO).
    + intros n Hn. destruct (decide (n = "RandomCase")) as [|Hne]; [easy|].
      exfalso. revert Hn.
      apply (Obfuscate_applied builtin command pf enabled g res g' n);
        [|exact HO].
      intros m Hin Hname.
      destruct (registered_cases m Hin) as [->|(fault & Hf & _)].
      * simpl in Hname. congruence.
      * intros tokens cfg g0. now rewrite Hf.
Qed.

(** ** A run in which no modifier runs *)

Lemma applyAll_nothing_runs (profile : Profile) (enabled : gmap string bool)
  (mods : list Modifier) (st : pipeline) :
  (forall m, m ∈ mods -> runs profile enabled m = false) ->
  applyAll profile enabled mods st = st.
Proof.
  revert st. induction mods as [|m mods IH]; intros st H; [reflexivity|].
  simpl. assert (E : applyModifier profile enabled st m = st).
  { specialize (H m (ltac:(apply elem_of_cons; now left))).
    unfold runs in H. unfold applyModifier.
    destruct (default false (enabled !! Name m)); [|reflexivity].
    simpl in *. apply bool_decide_eq_false_1 in H.
    destruct (Modifiers _ !! _); [|reflexivity]. exfalso. eauto. }
  rewrite E. apply IH. intros m' Hm'. apply H. apply elem_of_cons. now right.
Qed.

(** X15.  When no registered modifier is both enabled and configured, a
    run on a command with a field returns the command with its white
    space normalised, reports nothing and leaves the generator as it
    was. *)
Theorem Obfuscate_nothing_runs (R : Registry) (command : gostring)
  (pf' : ProfileFile) (profile : Profile) (enabled : gmap string bool)
  (g : rng) :
  pickProfile pf' = Some profile ->
  (forall m, m ∈ All R -> runs profile enabled m = false) ->
  Fields command <> [] ->
  Obfuscate R command (Some pf') enabled g
  = Some (({| Output := Join (Fields command) (str " ");
              Applied := []; Skipped := []; Errors := ∅ |}, None), g).
Proof.
  intros Hpick Hruns HF. unfold Obfuscate. rewrite Hpick.
  unfold pickProfile in Hpick.
  destruct (Profiles pf') as [|p ps]; [discriminate|]. simpl.
  unfold Tokenize. destruct (Fields command) as [|p0 rest]; [congruence|].
  rewrite (applyAll_nothing_runs _ _ _ _ Hruns). simpl.
  unfold Render. simpl map. now rewrite map_Value_arguments.
Qed.

Lemma Obfuscate_nothing_runs_witness :
  Obfuscate (@builtin exampleLib) (str " cmd.exe   /c ")
    (Some (fileOf [exampleProfile])) ∅ 0%nat
  = Some (({| Output := str "cmd.exe /c";
              Applied := []; Skipped := []; Errors := ∅ |}, None), 0%nat).
Proof.
  apply (Obfuscate_nothing_runs (@builtin exampleLib) (str " cmd.exe   /c ")
           (fileOf [exampleProfile]) exampleProfile ∅ 0%nat).
  - reflexivity.
  - intros m _. reflexivity.
  - discriminate.
Defined.

(** ** The output of a run with the modifiers of this build *)

Lemma applyAll_returnsInput (profile : Profile) (enabled : gmap string bool)
  (mods : list Modifier) (st : pipeline) :
  Forall returnsInput mods ->
  tokens_ (applyAll profile enabled mods st) = tokens_ st /\
  rng_ (applyAll profile enabled mods st) = rng_ st.
Proof.
  intros HF. revert st. induction HF as [|m mods [fault Hf] _ IH]; intros st;
    [split; reflexivity|].
  simpl. destruct (IH (applyModifier profile enabled st m)) as [-> ->].
  unfold applyModifier. destruct (negb _); [split; reflexivity|].
  destruct (Modifiers _ !! _) as [rawCfg|]; [|split; reflexivity].
  rewrite Hf. now destruct (errors_Is (fault rawCfg) ErrNotImplemented).
Qed.

Lemma randomcase_Apply_error `{GoLib} (tokens : list Token)
  (cfg : RawMessage) (g : rng) :
  snd (fst (randomcase_Apply tokens cfg g)) <> None ->
  fst (fst (randomcase_Apply tokens cfg g)) = tokens /\
  snd (randomcase_Apply tokens cfg g) = g.
Proof.
  unfold randomcase_Apply.
  destruct (json_Unmarshal_randomcase cfg) as [cfgM [e|]]; [now split|].
  destruct (strconv_ParseFloat _) as [p [e|]]; [now split|].
  destruct (flt p f0 || flt f1 p); [now split|].
  destruct (flipTokens _ p tokens g). simpl. congruence.
Qed.

Lemma applyModifier_RandomCase `{GoLib} (profile : Profile)
  (enabled : gmap string bool) (st : pipeline) :
  let st' := applyModifier profile enabled st RandomCase in
  match ConfigFor profile "RandomCase" with
  | Some cfg =>
      if default false (enabled !! "RandomCase") then
        tokens_ st' = fst (fst (randomcase_Apply (tokens_ st) cfg (rng_ st)))
        /\ rng_ st' = snd (randomcase_Apply (tokens_ st) cfg (rng_ st))
      else tokens_ st' = tokens_ st /\ rng_ st' = rng_ st
  | None => tokens_ st' = tokens_ st /\ rng_ st' = rng_ st
  end.
Proof.
  unfold applyModifier, ConfigFor. cbn [Name RandomCase Apply].
  destruct (Modifiers (Parameters profile) !! "RandomCase") as [cfg|];
    destruct (default false (enabled !! "RandomCase")); simpl;
    try (split; reflexivity).
  pose proof (randomcase_Apply_error (tokens_ st) cfg (rng_ st)) as HE.
  destruct (randomcase_Apply (tokens_ st) cfg (rng_ st))
    as [[out [e|]] g1]; simpl in *.
  - destruct HE as [-> ->]; [discriminate|].
    now destruct (errors_Is e ErrNotImplemented).
  - split; reflexivity.
Qed.

(** X16.  With the modifiers of this build, the output of a successful
    run is the rendering of what RandomCase returns on the tokens of the
    command, from the state of the generator at the start of the run, when
    RandomCase is enabled and configured, and the rendering of the tokens
    themselves when it is not; no other modifier changes a token or draws
    a number. *)
Theorem builtin_Obfuscate_output `{GoLib} (command : gostring)
  (pf' : ProfileFile) (profile : Profile) (enabled : gmap string bool)
  (g : rng) (tokens : list Token) (res : ObfuscateResult) (g' : rng) :
  pickProfile pf' = Some profile ->
  Tokenize command profile = (tokens, None) ->
  Obfuscate builtin command (Some pf') enabled g = Some ((res, None), g') ->
  match ConfigFor profile "RandomCase" with
  | Some cfg =>
      if default false (enabled !! "RandomCase") then
        Output res = Render (fst (fst (randomcase_Apply tokens cfg g))) /\
        g' = snd (randomcase_Apply tokens cfg g)
      else Output res = Render tokens /\ g' = g
  | None => Output res = Render tokens /\ g' = g
  end.
Proof.
  intros Hpick HT HO.
  apply Obfuscate_success in HO
    as (pf2 & profile2 & toks & [= <-] & Hpick2 & HT2 & HOut & _ & _ & _ & Hg).
  rewrite Hpick in Hpick2. injection Hpick2 as <-.
  rewrite HT in HT2. injection HT2 as <-.
  rewrite HOut, Hg. clear HOut Hg res g'.
  rewrite All_builtin.
  change [CharacterInsertion; FilePathTransformer; OptionCharSubstitution;
          QuoteInsertion; RandomCase; Regex; ReorderArgs; Sed; Shorthands;
          UrlTransformer]
    with ([CharacterInsertion; FilePathTransformer; OptionCharSubstitution;
           QuoteInsertion]
            ++ [RandomCase]
            ++ [Regex; ReorderArgs; Sed; Shorthands; UrlTransformer]).
  rewrite !applyAll_app.
  assert (Hpre : Forall returnsInput
                   [CharacterInsertion; FilePathTransformer;
                    OptionCharSubstitution; QuoteInsertion]).
  { repeat constructor;
      try (exists (fun _ => ErrNotImplemented); reflexivity).
    exists charinsert_error. reflexivity. }
  assert (Hpost : Forall returnsInput
                    [Regex; ReorderArgs; Sed; Shorthands; UrlTransformer]).
  { repeat constructor; exists (fun _ => ErrNotImplemented); reflexivity. }
  set (st0 := {| tokens_ := tokens; result_ := zeroResult; rng_ := g |}).
  destruct (applyAll_returnsInput profile enabled _ st0 Hpre) as [Ht1 Hg1].
  set (st1 := applyAll profile enabled
                [CharacterInsertion; FilePathTransformer;
                 OptionCharSubstitution; QuoteInsertion] st0) in *.
  change (applyAll profile enabled [RandomCase] st1)
    with (applyModifier profile enabled st1 RandomCase).
  destruct (applyAll_returnsInput profile enabled _
              (applyModifier profile enabled st1 RandomCase) Hpost)
    as [-> ->].
  pose proof (applyModifier_RandomCase profile enabled st1) as HR.
  simpl in HR. rewrite Ht1, Hg1 in HR. simpl in HR.
  destruct (ConfigFor profile "RandomCase") as [cfg|];
    [destruct (default false (enabled !! "RandomCase"))|];
    destruct HR as [-> ->]; split; reflexivity.
Qed.

Lemma builtin_Obfuscate_output_witness :
  exists res g',
    Obfuscate (@builtin exampleLib) (str "certutil.exe  -urlcache")
      (Some (fileOf [exampleProfile])) bothEnabled 0%nat
    = Some ((res, None), g') /\
    Output res = str "certutil.exe -URLCACHE" /\ g' = 9%nat.
Proof.
  assert (HO : exists res g',
             Obfuscate (@builtin exampleLib) (str "certutil.exe  -urlcache")
               (Some (fileOf [exampleProfile])) bothEnabled 0%nat
             = Some ((res, None), g')).
  { vm_compute. eauto. }
  destruct HO as (res & g' & HO). exists res, g'. split; [exact HO|].
  exact (@builtin_Obfuscate_output exampleLib (str "certutil.exe  -urlcache")
           (fileOf [exampleProfile]) exampleProfile bothEnabled 0%nat
           _ res g' eq_refl eq_refl HO).
Defined.

(** ** Further examples *)

Lemma applyObfuscation_call_witness :
  exists res g',
    Obfuscate (@builtin exampleLib) (str "  certutil.exe -urlcache ")
      (Some (fileOf [exampleProfile]))
      (enabledOf (ModifierSummary (@builtin exampleLib) bothEnabled)) 0%nat
    = Some ((res, None), g').
Proof.
  destruct (applyObfuscation_call (@builtin exampleLib)
              (Some (fileOf [exampleProfile]))
              (str "  certutil.exe -urlcache ")
              (ModifierSummary (@builtin exampleLib) bothEnabled) 0%nat)
    as (out & g' & Hrun & _ & _ & _ & Hdone).
  assert (Hout : exists res, out = CallDone res).
  { vm_compute in Hrun. injection Hrun as <- _. eauto. }
  destruct Hout as [res ->]. exists res, g'. now apply Hdone.
Defined.

Lemma DefaultEnabled_configured_witness :
  exists enabled,
    DefaultEnabled (Some (fileOf [exampleProfile])) = Some enabled /\
    enabled !! "RandomCase" = Some true /\
    enabled !! "Sed" = None.
Proof.
  destruct (DefaultEnabled_configured (Some (fileOf [exampleProfile])))
    as (enabled & HD & _ & H).
  destruct (H (fileOf [exampleProfile]) exampleProfile eq_refl eq_refl)
    as (HL & _).
  exists enabled. split; [exact HD|]. split; apply HL.
Defined.

Lemma builtin_pipeline_shape_witness :
  exists res g',
    Obfuscate (@builtin exampleLib) (str "certutil.exe   -urlcache")
      (Some (fileOf [exampleProfile])) bothEnabled 0%nat
    = Some ((res, None), g') /\
    length (Output res) = 22%nat.
Proof.
  assert (HO : exists res g',
             Obfuscate (@builtin exampleLib) (str "certutil.exe   -urlcache")
               (Some (fileOf [exampleProfile])) bothEnabled 0%nat
             = Some ((res, None), g')).
  { vm_compute. eauto. }
  destruct HO as (res & g' & HO). exists res, g'. split; [exact HO|].
  exact (proj1 (proj2 (@builtin_pipeline_shape exampleLib) _ _ _ _ _ _ HO)).
Defined.
